(** * picsorter: a shallow embedding of [main.py] and its specification

    The program walks a folder, reads a timestamp from each image
    (EXIF tag or file modification time), derives a destination path from
    it and renames the file.  The embedding follows [class PicSorter]
    method by method; the file system is an explicit finite map from paths
    to nodes, and what the program prints is an explicit list of messages. *)

From Stdlib Require Import ZArith Lia DecimalString DecimalNat Ascii String.
From stdpp Require Import base option list strings gmap fin_maps fin_sets.

Local Open Scope string_scope.

(** ** Strings: what [str.lower], [Path.suffix] and the format
    specifications [:02d] and [%Y%m%d%H%M%S] compute *)

Module Str.

(** [str.lower] on the ASCII range (the only range in which a suffix can
    match an entry of [SUPPORTED_EXTENSIONS]). *)
Definition lower_ascii (c : ascii) : ascii :=
  let n := nat_of_ascii c in
  if (65 <=? n)%nat && (n <=? 90)%nat then ascii_of_nat (n + 32) else c.

Fixpoint lower (s : string) : string :=
  match s with
  | EmptyString => EmptyString
  | String c s' => String (lower_ascii c) (lower s')
  end.

(** [s.rfind('.')]: position of the last dot, if any. *)
Fixpoint rfind_dot (s : string) : option nat :=
  match s with
  | EmptyString => None
  | String c s' =>
      match rfind_dot s' with
      | Some i => Some (S i)
      | None => if Ascii.eqb c "."%char then Some 0%nat else None
      end
  end.

(** [str(n)] for a natural number. *)
Definition of_nat (n : nat) : string :=
  NilZero.string_of_uint (Nat.to_uint n).

Fixpoint zeros (k : nat) : string :=
  match k with
  | O => EmptyString
  | S k' => String "0"%char (zeros k')
  end.

(** Left padding with ['0'] up to width [w]: what [{n:0wd}] and the
    two-digit fields of [strftime] do to [str(n)]. *)
Definition zfill (w : nat) (s : string) : string :=
  zeros (w - String.length s) +:+ s.

(** [f"{counter:02d}"] *)
Definition fmt_02d (n : nat) : string := zfill 2 (of_nat n).

Definition is_digit (c : ascii) : bool :=
  let n := nat_of_ascii c in (48 <=? n)%nat && (n <=? 57)%nat.

Fixpoint all_digits (s : string) : bool :=
  match s with
  | EmptyString => true
  | String c s' => is_digit c && all_digits s'
  end.

(** Reading a decimal numeral back, leading zeros allowed. *)
Definition to_nat (s : string) : option nat :=
  Nat.of_uint <$> NilEmpty.uint_of_string s.

(** A test [P] on the numerals of [k] consecutive numbers, counting up from
    the little-endian numeral [d] of the first. *)
Fixpoint holds_upto (P : Decimal.uint → bool) (k : nat) (d : Decimal.uint) : bool :=
  match k with
  | O => true
  | S k' => P (Decimal.rev d) && holds_upto P k' (Decimal.Little.succ d)
  end.

End Str.

(** ** Timestamps *)

(** [datetime.datetime], to the second. *)
Record datetime := mk_datetime {
  year : nat; month : nat; day : nat;
  hour : nat; minute : nat; second : nat
}.

(** The ranges every [datetime] object satisfies by construction. *)
Definition valid_datetime (d : datetime) : Prop :=
  (1 <= year d < 100 * 100 ∧ 1 <= month d <= 12 ∧ 1 <= day d <= 31 ∧
   hour d <= 23 ∧ minute d <= 59 ∧ second d <= 59)%nat.

(** [date_taken.strftime('%Y%m%d%H%M%S')], as CPython hands the format to
    the C library: [%m], [%d], [%H], [%M] and [%S] have two digits, [%Y] is
    the year as it stands, which glibc does not pad (year 999 prints as
    [999]). *)
Definition strftime (d : datetime) : string :=
  Str.of_nat (year d) +:+ Str.fmt_02d (month d) +:+ Str.fmt_02d (day d) +:+
  Str.fmt_02d (hour d) +:+ Str.fmt_02d (minute d) +:+ Str.fmt_02d (second d).

(** ** Paths ([pathlib.Path]) *)

(** A path is the list of its parts; two paths are equal when their parts
    are. *)
Abbreviation Path := (list string).

Module PathOps.

(** [p / name] for a single-component [name]. *)
Definition join (p : Path) (name : string) : Path := p ++ [name].

(** [p.parent] *)
Definition parent (p : Path) : Path := removelast p.

(** [p.name] *)
Definition name (p : Path) : string := List.last p "".

(** [p.suffix]: the part of the name from its last dot on, unless that
    dot is the first or the last character of the name. *)
Definition suffix (p : Path) : string :=
  let nm := name p in
  match Str.rfind_dot nm with
  | Some i =>
      if (0 <? i)%nat && (i <? String.length nm - 1)%nat
      then String.substring i (String.length nm - i) nm
      else ""
  | None => ""
  end.

End PathOps.

Infix "//" := PathOps.join (at level 40, left associativity).

(** ** The file system, as far as the program can observe it *)

(** The exceptions that the calls of the program can raise. *)
Inductive exn :=
  | FileNotFoundError | FileExistsError | PermissionError
  | NotADirectoryError | IsADirectoryError
  | UnidentifiedImageError | TypeError | OverflowError.

(** The value of an EXIF entry: text, or anything that is not a [str]. *)
Inductive exif_value :=
  | ExifText (s : string)
  | ExifOther.

(** What [Image.open(path)] followed by [img.getexif()] yields for the
    bytes of a file: an exception, or the entries of the EXIF mapping in
    the order in which [exif.items()] iterates over them. *)
Inductive image :=
  | Unreadable
  | Decoded (exif : list (Z * exif_value)).

(** A regular file: its content seen through Pillow, and
    [os.path.getmtime] in whole seconds. *)
Record file := mk_file { f_image : image; f_mtime : Z }.

(** A directory carries whether entries may be added to or removed from
    it (write permission). *)
Inductive node :=
  | Dir (writable : bool)
  | File (f : file).

Abbreviation FS := (gmap Path node).

Module Os.

Definition path_exists (fs : FS) (p : Path) : bool :=
  match fs !! p with Some _ => true | None => false end.

Definition is_dir (fs : FS) (p : Path) : bool :=
  match fs !! p with Some (Dir _) => true | _ => false end.

Definition is_file (fs : FS) (p : Path) : bool :=
  match fs !! p with Some (File _) => true | _ => false end.

(** Whether an entry can be created in or removed from directory [d]. *)
Definition can_modify (fs : FS) (d : Path) : exn + unit :=
  match fs !! d with
  | Some (Dir true) => inr tt
  | Some (Dir false) => inl PermissionError
  | Some (File _) => inl NotADirectoryError
  | None => inl FileNotFoundError
  end.

(** [d.mkdir(exist_ok=True)]: an existing directory is accepted, an
    existing file is not. *)
Definition mkdir_exist_ok (fs : FS) (d : Path) : exn + FS :=
  match fs !! d with
  | Some (Dir _) => inr fs
  | Some (File _) => inl FileExistsError
  | None =>
      match can_modify fs (PathOps.parent d) with
      | inl e => inl e
      | inr _ => inr (<[d := Dir true]> fs)
      end
  end.

(** Where the entries below [src] go when the directory [src] becomes
    [dst]. *)
Definition rebase (src dst p : Path) : Path :=
  if bool_decide (src `prefix_of` p) then dst ++ drop (length src) p else p.

(** [src.rename(dst)] (POSIX [rename(2)]): both parent directories must be
    writable; a regular file replaces an existing regular file silently;
    a directory moves with everything below it, onto a free name. *)
Definition rename (fs : FS) (src dst : Path) : exn + FS :=
  match fs !! src with
  | None => inl FileNotFoundError
  | Some n =>
      match can_modify fs (PathOps.parent src),
            can_modify fs (PathOps.parent dst) with
      | inl e, _ | _, inl e => inl e
      | inr _, inr _ =>
          match n, fs !! dst with
          | File _, Some (Dir _) => inl IsADirectoryError
          | File _, _ => inr (<[dst := n]> (delete src fs))
          | Dir _, Some _ => inl FileExistsError
          | Dir _, None => inr (kmap (rebase src dst) fs)
          end
      end
  end.

End Os.

(** ** What the interpreter and Pillow contribute *)

(** The three library values the program depends on.  They are kept
    abstract: every statement below holds whatever they are.
    - [strptime v] is [datetime.strptime(v, '%Y:%m:%d %H:%M:%S')], with
      [None] for [ValueError];
    - [fromtimestamp t] is [datetime.fromtimestamp(t)] in the local time
      zone, with [None] when it raises (a time out of range);
    - [TAGS] is the dictionary [PIL.ExifTags.TAGS]. *)
Class Platform := {
  strptime : string → option datetime;
  fromtimestamp : Z → option datetime;
  TAGS : gmap Z string
}.

(** ** What the program prints *)

Inductive stream := Stdout | Stderr.

(** One constructor per [click.echo] of the program; a message keeps the
    values that are interpolated into its text. *)
Inductive message :=
  | ErrorReadingMetadata (image_path : Path) (e : exn)
  | WouldRename (original_name new_name : string)
  | Renamed (original_name new_name : string)
  | ErrorRenaming (original_path new_path : Path) (e : exn)
  | FolderDoesNotExist (folder_path : Path)
  | NotADirectory (folder_path : Path)
  | UsageError (folder_path : Path)
  | NoImageFiles
  | Found (n : nat)
  | DryRunMode
  | Skipping (image_name : string)
  | MovedToNoExif
  | ProcessingComplete
  | SuccessfullyProcessed (n : nat)
  | ErrorsEncountered (n : nat).

Abbreviation line := (stream * message)%type.

(** ** [class PicSorter] *)

Definition SUPPORTED_EXTENSIONS : list string :=
  [".jpg"; ".jpeg"; ".png"; ".tiff"; ".tif"; ".bmp"; ".gif"; ".webp"].

(** The attributes set by [__init__]. *)
Record PicSorter := mk_PicSorter {
  dry_run : bool;
  processed_count : nat;
  error_count : nat
}.

Definition init (dry_run : bool) : PicSorter := mk_PicSorter dry_run 0 0.

(** The world a run acts on: the file system and the two output streams.
    [derived] is a ghost field, not program state: it records, for every
    file that reached [rename_file], the original path, the path
    [generate_new_filename] returned for it and what [rename_file]
    answered. *)
Record World := mk_World {
  fs : FS;
  output : list line;
  derived : list (Path * Path * bool)
}.

Definition echo (w : World) (ls : list line) : World :=
  mk_World (fs w) (output w ++ ls) (derived w).

Definition supported (extension : string) : bool :=
  bool_decide (extension ∈ SUPPORTED_EXTENSIONS).

(** Whether [os.walk(folder_path)] lists [p]: [folder_path] and every
    directory between it and [p] is a directory. *)
Definition walk_reaches (fs : FS) (folder_path p : Path) : bool :=
  bool_decide (folder_path `prefix_of` p) &&
  forallb (λ k, Os.is_dir fs (take k p))
          (seq (length folder_path) (length p - length folder_path)).

(** [find_image_files]: the regular files below [folder_path] whose
    lowercased suffix is supported.  The order of [os.walk] is the file
    system's; here it is the order in which the map enumerates its keys. *)
Definition find_image_files (fs : FS) (folder_path : Path) : list Path :=
  List.filter
    (λ file_path,
       Os.is_file fs file_path && walk_reaches fs folder_path file_path &&
       supported (Str.lower (PathOps.suffix file_path)))
    (fst <$> map_to_list fs).

(** A result that may be an exception, or the exhaustion of the fuel that
    bounds the [while] loop below. *)
Inductive outcome (A : Type) :=
  | Return (a : A)
  | Raise (e : exn)
  | OutOfFuel.
Arguments Return {A} a.
Arguments Raise {A} e.
Arguments OutOfFuel {A}.

Section program.
Context `{Platform}.

(** [TAGS.get(tag_id, tag_id)]: the name of the tag, or the number itself
    when the table has no name for it. *)
Definition TAGS_get (tag_id : Z) : string + Z :=
  match TAGS !! tag_id with
  | Some tag => inl tag
  | None => inr tag_id
  end.

(** [tag in ['DateTime', 'DateTimeOriginal', 'DateTimeDigitized']] *)
Definition is_date_tag (tag : string + Z) : bool :=
  match tag with
  | inl s => bool_decide (s ∈ ["DateTime"; "DateTimeOriginal"; "DateTimeDigitized"])
  | inr _ => false
  end.

(** The [for tag_id, value in exif.items()] loop of [extract_date_taken]:
    [inr (Some d)] when it returns [d], [inr None] when it falls through,
    [inl e] when [strptime] raises something that is not a [ValueError]. *)
Fixpoint scan_exif (items : list (Z * exif_value)) : exn + option datetime :=
  match items with
  | [] => inr None
  | (tag_id, value) :: rest =>
      if is_date_tag (TAGS_get tag_id) then
        match value with
        | ExifText s =>
            match strptime s with
            | Some d => inr (Some d)
            | None => scan_exif rest
            end
        | ExifOther => inl TypeError
        end
      else scan_exif rest
  end.

(** [extract_date_taken]: the pair it returns, and what its [except]
    clause prints.  It does not modify the file system. *)
Definition extract_date_taken (fs : FS) (image_path : Path)
  : option datetime * bool * list line :=
  let failed e := (None, false, [(Stderr, ErrorReadingMetadata image_path e)]) in
  match fs !! image_path with
  | None => failed FileNotFoundError
  | Some (Dir _) => failed IsADirectoryError
  | Some (File f) =>
      match f_image f with
      | Unreadable => failed UnidentifiedImageError
      | Decoded exif =>
          match scan_exif exif with
          | inl e => failed e
          | inr (Some d) => (Some d, false, [])
          | inr None =>
              match fromtimestamp (f_mtime f) with
              | Some d => (Some d, true, [])
              | None => failed OverflowError
              end
          end
      end
  end.

(** The [while new_path.exists() and new_path != original_path] loop of
    [generate_new_filename], with [new_path] and [counter] as the loop
    variables. *)
Fixpoint resolve_conflict (fuel : nat) (fs : FS) (original_path target_dir : Path)
    (date_str extension : string) (new_path : Path) (counter : nat) : option Path :=
  match fuel with
  | O => None
  | S fuel' =>
      if Os.path_exists fs new_path && negb (bool_decide (new_path = original_path))
      then
        let new_filename := date_str +:+ "_" +:+ Str.fmt_02d counter +:+ extension in
        resolve_conflict fuel' fs original_path target_dir date_str extension
                         (target_dir // new_filename) (S counter)
      else Some new_path
  end.

(** [generate_new_filename]: the file system after the call (it may have
    gained a [no-exif] directory) and the path returned.  The loop gets
    more fuel than the file system has entries. *)
Definition generate_new_filename (fs : FS) (original_path : Path)
    (date_taken : datetime) (is_fallback : bool) : outcome (FS * Path) :=
  let date_str := strftime date_taken in
  let extension := Str.lower (PathOps.suffix original_path) in
  let target :=
    if is_fallback then
      let no_exif_dir := PathOps.parent original_path // "no-exif" in
      match Os.mkdir_exist_ok fs no_exif_dir with
      | inl e => inl e
      | inr fs' => inr (fs', no_exif_dir)
      end
    else inr (fs, PathOps.parent original_path) in
  match target with
  | inl e => Raise e
  | inr (fs', target_dir) =>
      let new_filename := date_str +:+ extension in
      let new_path := target_dir // new_filename in
      match resolve_conflict (S (size fs')) fs' original_path target_dir
                             date_str extension new_path 1 with
      | Some new_path => Return (fs', new_path)
      | None => OutOfFuel
      end
  end.

(** [rename_file]: its boolean, the file system afterwards and what it
    prints. *)
Definition rename_file (dry_run : bool) (fs : FS) (original_path new_path : Path)
  : bool * FS * list line :=
  if bool_decide (original_path = new_path) then (true, fs, [])
  else if dry_run then
    (true, fs,
     [(Stdout, WouldRename (PathOps.name original_path) (PathOps.name new_path))])
  else
    match Os.rename fs original_path new_path with
    | inr fs' =>
        (true, fs',
         [(Stdout, Renamed (PathOps.name original_path) (PathOps.name new_path))])
    | inl e => (false, fs, [(Stderr, ErrorRenaming original_path new_path e)])
    end.

Definition count_processed (self : PicSorter) : PicSorter :=
  mk_PicSorter (dry_run self) (processed_count self + 1) (error_count self).

Definition count_error (self : PicSorter) : PicSorter :=
  mk_PicSorter (dry_run self) (processed_count self) (error_count self + 1).

(** How one iteration of the [for image_path in image_files] loop ends. *)
Inductive signal :=
  | Next
  | Uncaught (e : exn)
  | Fuel.

(** The body of the loop of [process_folder], for one [image_path]. *)
Definition process_image (self : PicSorter) (w : World) (image_path : Path)
  : signal * PicSorter * World :=
  let '(date_taken, is_fallback, err) := extract_date_taken (fs w) image_path in
  let w := echo w err in
  match date_taken with
  | None =>
      (Next, count_error self,
       echo w [(Stderr, Skipping (PathOps.name image_path))])
  | Some date_taken =>
      match generate_new_filename (fs w) image_path date_taken is_fallback with
      | Raise e => (Uncaught e, self, w)
      | OutOfFuel => (Fuel, self, w)
      | Return (fs', new_path) =>
          let '(renamed, fs'', said) :=
            rename_file (dry_run self) fs' image_path new_path in
          let w := mk_World fs'' (output w ++ said)
                            (derived w ++ [(image_path, new_path, renamed)]) in
          if renamed then
            (Next, count_processed self,
             if is_fallback then echo w [(Stdout, MovedToNoExif)] else w)
          else (Next, count_error self, w)
      end
  end.

(** The [for] loop: it stops at the first iteration that does not end
    normally. *)
Fixpoint process_images (self : PicSorter) (w : World) (image_files : list Path)
  : signal * PicSorter * World :=
  match image_files with
  | [] => (Next, self, w)
  | image_path :: rest =>
      match process_image self w image_path with
      | (Next, self', w') => process_images self' w' rest
      | stopped => stopped
      end
  end.

(** How a run ends. *)
Inductive ending :=
  | Finished
  | SysExit (code : nat)
  | Traceback (e : exn)
  | Unfinished.

(** The exit status of the process: 0 after a normal return, the argument
    of [sys.exit], 1 after an uncaught exception. *)
Definition exit_status (e : ending) : option nat :=
  match e with
  | Finished => Some 0%nat
  | SysExit code => Some code
  | Traceback _ => Some 1%nat
  | Unfinished => None
  end.

(** [process_folder] *)
Definition process_folder (self : PicSorter) (w : World) (folder_path : Path)
  : ending * PicSorter * World :=
  if negb (Os.path_exists (fs w) folder_path) then
    (SysExit 1, self, echo w [(Stderr, FolderDoesNotExist folder_path)])
  else if negb (Os.is_dir (fs w) folder_path) then
    (SysExit 1, self, echo w [(Stderr, NotADirectory folder_path)])
  else
    let image_files := find_image_files (fs w) folder_path in
    match image_files with
    | [] => (Finished, self, echo w [(Stdout, NoImageFiles)])
    | _ =>
        let w := echo w [(Stdout, Found (length image_files))] in
        let w := if dry_run self then echo w [(Stdout, DryRunMode)] else w in
        match process_images self w image_files with
        | (Next, self', w') =>
            let w' := echo w' [(Stdout, ProcessingComplete);
                               (Stdout, SuccessfullyProcessed (processed_count self'))] in
            let w' := if (0 <? error_count self')%nat
                      then echo w' [(Stdout, ErrorsEncountered (error_count self'))]
                      else w' in
            (Finished, self', w')
        | (Uncaught e, self', w') => (Traceback e, self', w')
        | (Fuel, self', w') => (Unfinished, self', w')
        end
    end.

(** [main], with the check that [click.Path(exists=True)] makes on the
    argument before the body runs (a usage error, exit status 2). *)
Definition main (w : World) (folder_path : Path) (dry_run : bool)
  : ending * PicSorter * World :=
  if negb (Os.path_exists (fs w) folder_path) then
    (SysExit 2, init dry_run, echo w [(Stderr, UsageError folder_path)])
  else process_folder (init dry_run) w folder_path.

End program.

(** ** A concrete platform, for running the program on examples *)

Module Reference.

(** The text between positions [i] and [i + n] of [s] as a number, when it
    consists of digits. *)
Definition field (s : string) (i n : nat) : option nat :=
  let t := String.substring i n s in
  if Str.all_digits t then Str.to_nat t else None.

Definition sep (s : string) (i : nat) (c : string) : bool :=
  String.eqb (String.substring i 1 s) c.

Definition is_leap (y : nat) : bool :=
  ((y mod 4 =? 0) && negb (y mod 100 =? 0) || (y mod 400 =? 0))%nat.

Definition days_in_month (y m : nat) : nat :=
  match m with
  | 2 => if is_leap y then 29 else 28
  | 4 | 6 | 9 | 11 => 30
  | _ => 31
  end.

(** [strptime] on the fixed-width form [YYYY:MM:DD HH:MM:SS], which is
    the form EXIF prescribes.  (The library also accepts some fields
    written without their leading zero; the examples do not use any.) *)
Definition strptime_exif (s : string) : option datetime :=
  if (String.length s =? 19)%nat && sep s 4 ":" && sep s 7 ":" && sep s 10 " "
     && sep s 13 ":" && sep s 16 ":"
  then
    y ← field s 0 4; m ← field s 5 2; d ← field s 8 2;
    h ← field s 11 2; mi ← field s 14 2; se ← field s 17 2;
    if ((1 <=? y) && (1 <=? m) && (m <=? 12) && (1 <=? d)
        && (d <=? days_in_month y m) && (h <=? 23) && (mi <=? 59)
        && (se <=? 59))%nat
    then Some (mk_datetime y m d h mi se)
    else None
  else None.

(** [fromtimestamp] for a machine whose local time is UTC: the civil date
    of a day number, and the time of day. *)
Definition fromtimestamp_utc (t : Z) : option datetime :=
  let days := (t / 86400)%Z in
  let secs := (t mod 86400)%Z in
  let z := (days + 719468)%Z in
  let era := (z / 146097)%Z in
  let doe := (z - era * 146097)%Z in
  let yoe := ((doe - doe / 1460 + doe / 36524 - doe / 146096) / 365)%Z in
  let doy := (doe - (365 * yoe + yoe / 4 - yoe / 100))%Z in
  let mp := ((5 * doy + 2) / 153)%Z in
  let d := (doy - (153 * mp + 2) / 5 + 1)%Z in
  let m := (if (mp <? 10)%Z then mp + 3 else mp - 9)%Z in
  let y := (yoe + era * 400 + (if (m <=? 2)%Z then 1 else 0))%Z in
  if ((1 <=? y) && (y <=? 9999))%Z then
    Some (mk_datetime (Z.to_nat y) (Z.to_nat m) (Z.to_nat d)
            (Z.to_nat (secs / 3600)) (Z.to_nat (secs mod 3600 / 60))
            (Z.to_nat (secs mod 60)))
  else None.

(** The entries of [PIL.ExifTags.TAGS] that the examples meet. *)
Definition tags : gmap Z string :=
  list_to_map [(271%Z, "Make"); (272%Z, "Model"); (274%Z, "Orientation");
               (306%Z, "DateTime"); (36867%Z, "DateTimeOriginal");
               (36868%Z, "DateTimeDigitized")].

#[export] Instance platform : Platform :=
  {| strptime := strptime_exif; fromtimestamp := fromtimestamp_utc; TAGS := tags |}.

(** Sample files. *)
Definition with_original (v : string) : file :=
  mk_file (Decoded [(271%Z, ExifText "ACME"); (36867%Z, ExifText v)]) 1600000000.

Definition without_exif (mtime : Z) : file := mk_file (Decoded []) mtime.

Definition not_an_image : file := mk_file Unreadable 1600000000.

(** A writable folder [pics] in a writable current directory, holding the
    given files. *)
Definition folder (files : list (string * file)) : FS :=
  list_to_map (([], Dir true) :: (["pics"], Dir true) ::
               ((λ nf, (["pics"; nf.1], File nf.2)) <$> files)).

Definition start (fs : FS) : World := mk_World fs [] [].

(** A photo taken on 17 May 2023 at 14:30:00. *)
Definition shot : file := with_original "2023:05:17 14:30:00".

(** The folders of the examples. *)
Definition holiday : FS :=
  folder [("photo.jpg", shot); ("scan.PNG", without_exif 1640995200);
          ("notes.txt", not_an_image); ("bad.gif", not_an_image)].

Definition burst : FS :=
  folder [("a.jpg", shot); ("b.jpg", shot); ("c.jpg", shot)].

Definition pair : FS := folder [("a.jpg", shot); ("b.jpg", shot)].

Definition scans : FS := folder [("scan.png", without_exif 1640995200)].

(** Three scans without EXIF, last modified in one and the same second. *)
Definition scan_burst : FS :=
  folder [("x.png", without_exif 1640995200); ("y.png", without_exif 1640995200);
          ("z.png", without_exif 1640995200)].

(** A photo whose EXIF date lies in the year 999. *)
Definition ancient : file :=
  mk_file (Decoded [(306%Z, ExifText "0999:01:01 00:00:00")]) 1600000000.

(** A folder in which the name [no-exif] belongs to a regular file. *)
Definition blocked : FS :=
  folder [("no-exif", not_an_image); ("scan.png", without_exif 1640995200);
          ("photo.jpg", shot)].

(** [pair], read-only. *)
Definition locked : FS := <[["pics"] := Dir false]> pair.

End Reference.

(** ** Vocabulary of the statements *)

(** The [i]-th path that the loop of [generate_new_filename] tries: the
    plain name first, then the names with the counter [i]. *)
Definition candidate (target_dir : Path) (date_str extension : string) (i : nat)
  : Path :=
  match i with
  | O => target_dir // (date_str +:+ extension)
  | S _ => target_dir // (date_str +:+ "_" +:+ Str.fmt_02d i +:+ extension)
  end.

(** What stands between the date and the extension in the [i]-th name. *)
Definition counter_suffix (i : nat) : string :=
  match i with
  | O => ""
  | S _ => "_" +:+ Str.fmt_02d i
  end.

(** The condition of the loop: the path exists and is not the file being
    renamed. *)
Definition taken (fs : FS) (original_path p : Path) : bool :=
  Os.path_exists fs p && negb (bool_decide (p = original_path)).

(** The regular files of a file system, without their paths. *)
Definition files_of (fs : FS) : list file :=
  omap (λ entry, match entry.2 with File f => Some f | Dir _ => None end)
       (map_to_list fs).

(** The directory [generate_new_filename] targets. *)
Definition target_dir_of (original_path : Path) (is_fallback : bool) : Path :=
  if is_fallback then PathOps.parent original_path // "no-exif"
  else PathOps.parent original_path.

Section vocabulary.
Context `{Platform}.

(** The ways in which one iteration of the loop can go.  [fs1] is the
    file system once the target directory is there, [d] the path derived
    for the file, [ok] the answer of [rename_file]. *)
Inductive step_kind (self : PicSorter) (w : World) (p : Path)
  : signal → PicSorter → World → Prop :=
  | step_skipped e :
      extract_date_taken (fs w) p =
        (None, false, [(Stderr, ErrorReadingMetadata p e)]) →
      step_kind self w p Next (count_error self)
        (echo w [(Stderr, ErrorReadingMetadata p e);
                 (Stderr, Skipping (PathOps.name p))])
  | step_aborted dt e :
      extract_date_taken (fs w) p = (Some dt, true, []) →
      Os.mkdir_exist_ok (fs w) (PathOps.parent p // "no-exif") = inl e →
      step_kind self w p (Uncaught e) self w
  | step_handled dt fb f fs1 k ok fs2 said :
      fs w !! p = Some (File f) →
      extract_date_taken (fs w) p = (Some dt, fb, []) →
      (if fb then Os.mkdir_exist_ok (fs w) (PathOps.parent p // "no-exif")
       else inr (fs w)) = inr fs1 →
      fs1 !! p = Some (File f) →
      let d := candidate (target_dir_of p fb) (strftime dt)
                         (Str.lower (PathOps.suffix p)) k in
      taken fs1 p d = false →
      (∀ m, (m < k)%nat →
            taken fs1 p (candidate (target_dir_of p fb) (strftime dt)
                           (Str.lower (PathOps.suffix p)) m) = true) →
      rename_file (dry_run self) fs1 p d = (ok, fs2, said) →
      step_kind self w p Next
        (if ok then count_processed self else count_error self)
        (mk_World fs2
           (output w ++ said ++
              if ok && fb then [(Stdout, MovedToNoExif)] else [])
           (derived w ++ [(p, d, ok)])).

(** The claim that the three date tags are consulted by priority, in the
    words of the specification: the value stored under a tag name, the
    timestamp it parses to, and the first of [DateTimeOriginal],
    [DateTimeDigitized], [DateTime] that parses. *)
Definition tag_value (tag : string) (items : list (Z * exif_value))
  : option exif_value :=
  snd <$> List.find (λ item, bool_decide (TAGS_get item.1 = inl tag)) items.

Definition parse_tag (tag : string) (items : list (Z * exif_value))
  : option datetime :=
  match tag_value tag items with
  | Some (ExifText s) => strptime s
  | _ => None
  end.

Definition by_priority (items : list (Z * exif_value)) : option datetime :=
  match parse_tag "DateTimeOriginal" items with
  | Some d => Some d
  | None =>
      match parse_tag "DateTimeDigitized" items with
      | Some d => Some d
      | None => parse_tag "DateTime" items
      end
  end.

(** [p] derives the plain name [dir // (date_str +:+ ext)]: the extractor
    gives it a timestamp that prints as [date_str], with or without the
    fallback, its target directory is [dir] and its lowercased suffix is
    [ext]. *)
Definition derives (fs : FS) (p dir : Path) (date_str ext : string) : Prop :=
  ∃ dt fb, extract_date_taken fs p = (Some dt, fb, []) ∧
           target_dir_of p fb = dir ∧ strftime dt = date_str ∧
           Str.lower (PathOps.suffix p) = ext.

(** No destination that [generate_new_filename] returned in a run,
    whether [rename_file] then accepted it or not, is a destination that
    was accepted earlier in the run. *)
Definition never_reclaimed (tr : list (Path * Path * bool)) : Prop :=
  ∀ (i j : nat) (p_i d_i p_j d_j : Path) (ok_j : bool),
    (i < j)%nat →
    tr !! i = Some (p_i, d_i, true) → tr !! j = Some (p_j, d_j, ok_j) →
    d_j ≠ d_i.

(** The destinations of a run that [rename_file] accepted. *)
Definition claimed (tr : list (Path * Path * bool)) : list Path :=
  (λ t, t.1.2) <$> List.filter (λ t, t.2) tr.

(** What a real run maintains between two files: the claimed
    destinations are pairwise different, each is on disk and none is a
    file still to be processed; the files still to be processed are on
    disk. *)
Definition claims_on_disk (w : World) (rest : list Path) : Prop :=
  NoDup (claimed (derived w)) ∧
  (∀ d, d ∈ claimed (derived w) → is_Some (fs w !! d) ∧ d ∉ rest) ∧
  (∀ p, p ∈ rest → is_Some (fs w !! p)).

End vocabulary.

(** * Facts *)

(** ** Strings and formats *)

Module StrFacts.
Import Str.

Lemma append_cons (c : ascii) (a b : string) :
  String c a +:+ b = String c (a +:+ b).
Proof. reflexivity. Qed.

Lemma append_nil (b : string) : "" +:+ b = b.
Proof. reflexivity. Qed.

Lemma append_inj_l (s a b : string) : s +:+ a = s +:+ b → a = b.
Proof.
  induction s as [|c s IH]; [done|]. rewrite !append_cons. intros [=]; auto.
Qed.

Lemma append_length (a b : string) :
  String.length (a +:+ b) = (String.length a + String.length b)%nat.
Proof.
  induction a as [|c a IH]; [done|]. rewrite append_cons. simpl. by rewrite IH.
Qed.

Lemma append_inj_r (a b s : string) : a +:+ s = b +:+ s → a = b.
Proof.
  revert b; induction a as [|c a IH]; intros [|c' b];
    rewrite ?append_cons, ?append_nil; intros E.
  - done.
  - apply (f_equal String.length) in E. simpl in E.
    rewrite append_length in E. lia.
  - apply (f_equal String.length) in E. simpl in E.
    rewrite append_length in E. lia.
  - injection E as -> E. f_equal. by apply IH.
Qed.

Lemma append_assoc (a b c : string) : (a +:+ b) +:+ c = a +:+ (b +:+ c).
Proof.
  induction a as [|x a IH]; [done|]. rewrite !append_cons. by rewrite IH.
Qed.

Lemma to_uint_not_nil (n : nat) : Nat.to_uint n ≠ Decimal.Nil.
Proof.
  intros E. pose proof (Unsigned.of_to n) as Hn. rewrite E in Hn.
  simpl in Hn. subst n. discriminate E.
Qed.

Lemma to_nat_of_nat (n : nat) : to_nat (of_nat n) = Some n.
Proof.
  unfold to_nat, of_nat, NilZero.string_of_uint.
  pose proof (to_uint_not_nil n) as Hnil.
  destruct (Nat.to_uint n) as [| | | | | | | | | |] eqn:E; [done|..];
    rewrite NilEmpty.usu; simpl; rewrite <- E, Unsigned.of_to; done.
Qed.

Lemma to_nat_zeros (k : nat) (s : string) (n : nat) :
  to_nat s = Some n → to_nat (zeros k +:+ s) = Some n.
Proof.
  intros Hs. induction k as [|k IH]; [done|].
  cbn [zeros]. rewrite append_cons. unfold to_nat in *. simpl.
  destruct (NilEmpty.uint_of_string (zeros k +:+ s)) as [d|]; [|done].
  simpl in *. injection IH as <-. done.
Qed.

Lemma to_nat_fmt_02d (n : nat) : to_nat (fmt_02d n) = Some n.
Proof. apply to_nat_zeros, to_nat_of_nat. Qed.

(** Distinct counters print differently. *)
Lemma fmt_02d_inj (n m : nat) : fmt_02d n = fmt_02d m → n = m.
Proof.
  intros E. pose proof (to_nat_fmt_02d n) as Hn.
  rewrite E, to_nat_fmt_02d in Hn. congruence.
Qed.

Lemma holds_upto_spec (P : Decimal.uint → bool) (k n : nat) :
  holds_upto P k (Nat.to_little_uint n (Decimal.D0 Decimal.Nil)) = true →
  ∀ m, (n ≤ m < n + k)%nat → P (Nat.to_uint m) = true.
Proof.
  revert n. induction k as [|k IH]; intros n Hall m Hm; [lia|].
  cbn [holds_upto] in Hall. apply andb_prop in Hall as [Hn Hrest].
  destruct (decide (m = n)) as [->|Hne]; [exact Hn|].
  apply (IH (S n)); [|lia].
  cbn [Nat.to_little_uint]. by rewrite Unsigned.to_little_uint_succ.
Qed.

(** Below one hundred, [:02d] prints exactly two digits. *)
Lemma fmt_02d_two_digits (n : nat) :
  (n < 100)%nat → String.length (fmt_02d n) = 2%nat ∧ all_digits (fmt_02d n) = true.
Proof.
  intros Hn.
  pose (P := λ d, let s := zfill 2 (NilZero.string_of_uint d) in
                  (String.length s =? 2)%nat && all_digits s).
  assert (holds_upto P 100 (Decimal.D0 Decimal.Nil) = true) as Hall
    by (vm_compute; reflexivity).
  pose proof (holds_upto_spec P 100 0 Hall n ltac:(lia)) as Hp.
  clear Hall. apply andb_prop in Hp as [H1 H2].
  apply Nat.eqb_eq in H1. split; [exact H1|exact H2].
Qed.

(** From 1000 on, and below 10000, [str(n)] has four characters. *)
Lemma of_nat_four_digits (n : nat) :
  (1000 ≤ n < 100 * 100)%nat → String.length (of_nat n) = 4%nat.
Proof.
  intros Hn.
  pose (P := λ d, (String.length (NilZero.string_of_uint d) =? 4)%nat).
  assert (holds_upto P (90 * 100) (Nat.to_little_uint 1000 (Decimal.D0 Decimal.Nil))
          = true) as Hall by (vm_compute; reflexivity).
  pose proof (holds_upto_spec P (90 * 100) 1000 Hall n ltac:(lia)) as Hp.
  clear Hall. by apply Nat.eqb_eq in Hp.
Qed.

Lemma all_digits_append (a b : string) :
  all_digits (a +:+ b) = all_digits a && all_digits b.
Proof.
  induction a as [|c a IH]; [done|]. rewrite append_cons. simpl.
  rewrite IH. by rewrite andb_assoc.
Qed.

Lemma all_digits_string_of_uint (d : Decimal.uint) :
  all_digits (NilEmpty.string_of_uint d) = true.
Proof. induction d; simpl; auto. Qed.

(** [str(n)] consists of digits, whatever [n]. *)
Lemma all_digits_of_nat (n : nat) : all_digits (of_nat n) = true.
Proof.
  unfold of_nat, NilZero.string_of_uint.
  destruct (Nat.to_uint n); try apply (all_digits_string_of_uint (_ _)); done.
Qed.

Lemma all_digits_zeros (k : nat) : all_digits (zeros k) = true.
Proof. induction k; simpl; auto. Qed.

(** So does [:02d]. *)
Lemma all_digits_fmt_02d (n : nat) : all_digits (fmt_02d n) = true.
Proof.
  unfold fmt_02d, zfill.
  by rewrite all_digits_append, all_digits_zeros, all_digits_of_nat.
Qed.

Lemma nzhead_not_D0 (d e : Decimal.uint) : Decimal.nzhead d ≠ Decimal.D0 e.
Proof. induction d; simpl; done. Qed.

(** [str(n)] has no leading zero, unless [n] is 0. *)
Lemma of_nat_no_leading_zero (n : nat) (rest : string) :
  (1 ≤ n)%nat → of_nat n ≠ String "0"%char rest.
Proof.
  intros Hn E.
  pose proof (Unsigned.to_of (Nat.to_uint n)) as Hnorm.
  rewrite Unsigned.of_to in Hnorm. unfold Decimal.unorm in Hnorm.
  pose proof (nzhead_not_D0 (Nat.to_uint n)) as Hhead.
  unfold of_nat, NilZero.string_of_uint in E.
  destruct (Nat.to_uint n) as [|d| | | | | | | | |] eqn:Hd;
    [by apply to_uint_not_nil in Hd| |discriminate E..].
  destruct (Decimal.nzhead (Decimal.D0 d)) as [|e| | | | | | | | |] eqn:Hz;
    try discriminate Hnorm.
  - injection Hnorm as ->.
    pose proof (Unsigned.of_to n) as Hof. rewrite Hd in Hof.
    vm_compute in Hof. lia.
  - by apply (Hhead e).
Qed.

(** A numeral of one character is below ten. *)
Lemma to_nat_one_char (c : ascii) (n : nat) :
  to_nat (String c "") = Some n → (n < 10)%nat.
Proof.
  destruct c as [[] [] [] [] [] [] [] []]; vm_compute; intros [= <-]; lia.
Qed.

Lemma of_nat_length_ge_2 (n : nat) : (10 ≤ n)%nat → (2 ≤ String.length (of_nat n))%nat.
Proof.
  intros Hn. pose proof (to_nat_of_nat n) as Hback.
  destruct (of_nat n) as [|c [|c' s]] eqn:E; simpl; [|..|lia].
  - vm_compute in Hback. injection Hback as <-. lia.
  - apply to_nat_one_char in Hback. lia.
Qed.

(** From ten on, [:02d] pads nothing: it prints [str(n)]. *)
Lemma fmt_02d_unpadded (n : nat) : (10 ≤ n)%nat → fmt_02d n = of_nat n.
Proof.
  intros Hn. unfold fmt_02d, zfill.
  pose proof (of_nat_length_ge_2 n Hn) as Hlen.
  by replace (2 - String.length (of_nat n))%nat with 0%nat by lia.
Qed.

Lemma substring_0_append (a b : string) :
  String.substring 0 (String.length a) (a +:+ b) = a.
Proof.
  induction a as [|c a IH]; [by destruct b|].
  rewrite append_cons. simpl. by rewrite IH.
Qed.

Lemma substring_skip_append (a b : string) (n : nat) :
  String.substring (String.length a) n (a +:+ b) = String.substring 0 n b.
Proof. induction a as [|c a IH]; [done|]. rewrite append_cons. simpl. apply IH. Qed.

(** Cutting a string that starts with [a] then [b]: the part of [b]. *)
Lemma substring_middle (a b c : string) :
  String.substring (String.length a) (String.length b) (a +:+ b +:+ c) = b.
Proof. by rewrite substring_skip_append, substring_0_append. Qed.

(** The date string of a [datetime] from year 1000 on: fourteen digits,
    which read back as the six fields in the order year, month, day,
    hour, minute, second. *)
Lemma strftime_14_digits (d : datetime) :
  valid_datetime d → (1000 ≤ year d)%nat →
  String.length (strftime d) = 14%nat ∧ all_digits (strftime d) = true ∧
  to_nat (String.substring 0 4 (strftime d)) = Some (year d) ∧
  to_nat (String.substring 4 2 (strftime d)) = Some (month d) ∧
  to_nat (String.substring 6 2 (strftime d)) = Some (day d) ∧
  to_nat (String.substring 8 2 (strftime d)) = Some (hour d) ∧
  to_nat (String.substring 10 2 (strftime d)) = Some (minute d) ∧
  to_nat (String.substring 12 2 (strftime d)) = Some (second d).
Proof.
  intros (Hy & Hm & Hd & Hh & Hmi & Hs) Hy1000. unfold strftime.
  pose proof (of_nat_four_digits (year d) ltac:(lia)) as Ly.
  destruct (fmt_02d_two_digits (month d)) as [Lm _]; [lia|].
  destruct (fmt_02d_two_digits (day d)) as [Ld _]; [lia|].
  destruct (fmt_02d_two_digits (hour d)) as [Lh _]; [lia|].
  destruct (fmt_02d_two_digits (minute d)) as [Lmi _]; [lia|].
  destruct (fmt_02d_two_digits (second d)) as [Ls _]; [lia|].
  set (Y := of_nat (year d)) in *. set (M := fmt_02d (month d)) in *.
  set (D := fmt_02d (day d)) in *. set (h := fmt_02d (hour d)) in *.
  set (m := fmt_02d (minute d)) in *. set (s := fmt_02d (second d)) in *.
  split; [rewrite !append_length; lia|].
  split.
  { rewrite !all_digits_append. unfold Y, M, D, h, m, s.
    by rewrite all_digits_of_nat, !all_digits_fmt_02d. }
  split.
  { rewrite <- Ly, substring_0_append. apply to_nat_of_nat. }
  assert (∀ (a b c : string) (i n : nat),
            String.length a = i → String.length b = n →
            String.substring i n (a +:+ b +:+ c) = b) as Hcut.
  { intros a b c i n <- <-. apply substring_middle. }
  split.
  { rewrite (Hcut Y M); [apply to_nat_fmt_02d|done..]. }
  split.
  { rewrite <- (append_assoc Y M), (Hcut (Y +:+ M) D);
      [apply to_nat_fmt_02d|rewrite append_length; lia|done]. }
  split.
  { rewrite <- (append_assoc Y M), <- (append_assoc (Y +:+ M) D),
      (Hcut ((Y +:+ M) +:+ D) h);
      [apply to_nat_fmt_02d|rewrite !append_length; lia|done]. }
  split.
  { rewrite <- (append_assoc Y M), <- (append_assoc (Y +:+ M) D),
      <- (append_assoc ((Y +:+ M) +:+ D) h),
      (Hcut (((Y +:+ M) +:+ D) +:+ h) m);
      [apply to_nat_fmt_02d|rewrite !append_length; lia|done]. }
  rewrite <- (append_assoc Y M), <- (append_assoc (Y +:+ M) D),
    <- (append_assoc ((Y +:+ M) +:+ D) h),
    <- (append_assoc (((Y +:+ M) +:+ D) +:+ h) m).
  replace s with (s +:+ "") at 1 by (clear; induction s as [|c s IH]; [done|];
                                     rewrite append_cons; by rewrite IH).
  rewrite (Hcut ((((Y +:+ M) +:+ D) +:+ h) +:+ m) s "");
    [apply to_nat_fmt_02d|rewrite !append_length; lia|done].
Qed.

End StrFacts.

(** ** The filename deriver *)

Section deriver.
Context `{Platform}.

Lemma join_inj (d : Path) (a b : string) : d // a = d // b → a = b.
Proof. unfold PathOps.join. intros E. apply app_inv_head in E. congruence. Qed.

Lemma parent_join (d : Path) (a : string) : PathOps.parent (d // a) = d.
Proof. apply removelast_last. Qed.

Lemma name_join (d : Path) (a : string) : PathOps.name (d // a) = a.
Proof. apply last_last. Qed.

Lemma join_ne_self (d : Path) (a : string) : d // a ≠ d.
Proof.
  intros E. apply (f_equal length) in E. unfold PathOps.join in E.
  rewrite length_app in E. simpl in E. lia.
Qed.

(** The paths tried by the loop are pairwise different. *)
Lemma candidate_inj (d : Path) (ds ext : string) (i j : nat) :
  candidate d ds ext i = candidate d ds ext j → i = j.
Proof.
  destruct i as [|i], j as [|j]; unfold candidate; intros E%join_inj; [done|..].
  - apply StrFacts.append_inj_l in E.
    apply (f_equal String.length) in E.
    rewrite !StrFacts.append_length in E. simpl in E. lia.
  - apply StrFacts.append_inj_l in E.
    apply (f_equal String.length) in E.
    rewrite !StrFacts.append_length in E. simpl in E. lia.
  - apply StrFacts.append_inj_l, StrFacts.append_inj_l in E.
    apply StrFacts.append_inj_r in E. by apply StrFacts.fmt_02d_inj.
Qed.

(** A file system has fewer entries than the loop has names to try. *)
Lemma free_candidate_exists (fs : FS) (d : Path) (ds ext : string) :
  ∃ j, (j ≤ size fs)%nat ∧ fs !! candidate d ds ext j = None.
Proof.
  destruct (decide (Forall (λ j, is_Some (fs !! candidate d ds ext j))
                           (seq 0 (S (size fs))))) as [Hall|Hex].
  - exfalso.
    set (l := candidate d ds ext <$> seq 0 (S (size fs))).
    assert (NoDup l) as Hnd.
    { apply NoDup_fmap_2; [|apply NoDup_seq].
      intros i j. apply candidate_inj. }
    assert (list_to_set l ⊆ dom fs) as Hsub.
    { intros p [j [-> Hj]]%elem_of_list_to_set%list_elem_of_fmap.
      apply elem_of_dom. rewrite Forall_forall in Hall. by apply Hall. }
    apply subseteq_size in Hsub.
    rewrite size_list_to_set, size_dom in Hsub by done.
    unfold l in Hsub. rewrite length_fmap, length_seq in Hsub. lia.
  - apply not_Forall_Exists, Exists_exists in Hex; [|apply _].
    destruct Hex as (j & Hj%elem_of_seq & Hnone).
    exists j. split; [lia|]. by apply eq_None_not_Some.
Qed.

Lemma resolve_conflict_step (fuel : nat) (fs : FS) (orig d : Path)
    (ds ext : string) (i : nat) :
  resolve_conflict (S fuel) fs orig d ds ext (candidate d ds ext i) (S i) =
  if taken fs orig (candidate d ds ext i)
  then resolve_conflict fuel fs orig d ds ext (candidate d ds ext (S i)) (S (S i))
  else Some (candidate d ds ext i).
Proof. reflexivity. Qed.

(** With enough fuel for a name on which the loop condition fails, the
    loop returns the first such name. *)
Lemma resolve_conflict_first (fs : FS) (orig d : Path) (ds ext : string)
    (fuel i j : nat) :
  (i ≤ j < i + fuel)%nat →
  taken fs orig (candidate d ds ext j) = false →
  ∃ k, resolve_conflict fuel fs orig d ds ext (candidate d ds ext i) (S i)
         = Some (candidate d ds ext k) ∧
       (i ≤ k ≤ j)%nat ∧
       taken fs orig (candidate d ds ext k) = false ∧
       ∀ m, (i ≤ m < k)%nat → taken fs orig (candidate d ds ext m) = true.
Proof.
  revert i. induction fuel as [|fuel IH]; intros i Hij Hj; [lia|].
  rewrite resolve_conflict_step.
  destruct (taken fs orig (candidate d ds ext i)) eqn:Hi.
  - assert (i ≠ j) by congruence.
    destruct (IH (S i)) as (k & Hk & Hik & Hfree & Hbefore); [lia|done|].
    exists k. repeat split; [done|lia|lia|done|].
    intros m Hm. destruct (decide (m = i)) as [->|]; [done|].
    apply Hbefore. lia.
  - exists i. repeat split; [lia|lia|done|]. intros m Hm. lia.
Qed.

End deriver.

Section deriver_results.
Context `{Platform}.

Lemma taken_false_iff (fs : FS) (orig p : Path) :
  taken fs orig p = false ↔ fs !! p = None ∨ p = orig.
Proof.
  unfold taken, Os.path_exists. destruct (fs !! p) as [n|]; simpl.
  - rewrite negb_false_iff, bool_decide_eq_true. naive_solver.
  - naive_solver.
Qed.

Lemma taken_true_iff (fs : FS) (orig p : Path) :
  taken fs orig p = true ↔ is_Some (fs !! p) ∧ p ≠ orig.
Proof.
  unfold taken, Os.path_exists. destruct (fs !! p) as [n|]; simpl.
  - rewrite negb_true_iff, bool_decide_eq_false. naive_solver.
  - split; [done|]. intros [Hsome _]. by apply is_Some_None in Hsome.
Qed.

(** The file system after the first half of [generate_new_filename]. *)
Lemma mkdir_exist_ok_inr (fs fs' : FS) (d : Path) :
  Os.mkdir_exist_ok fs d = inr fs' →
  Os.is_dir fs' d = true ∧
  (∀ p, p ≠ d → fs' !! p = fs !! p) ∧
  (is_Some (fs !! d) → fs' = fs) ∧
  (fs !! d = None → fs' = <[d := Dir true]> fs).
Proof.
  unfold Os.mkdir_exist_ok, Os.is_dir.
  destruct (fs !! d) as [[wr|f]|] eqn:Hd; [| done |].
  - intros [= <-]. rewrite Hd. repeat split; done.
  - destruct (Os.can_modify fs (PathOps.parent d)); [done|].
    intros [= <-]. rewrite lookup_insert_eq. split; [done|]. split; [|split].
    + intros p Hp. by rewrite lookup_insert_ne.
    + intros Hsome. by apply is_Some_None in Hsome.
    + done.
Qed.

(** [generate_new_filename] returns as soon as its directory is there: it
    never runs out of fuel, and the path it returns is the first of the
    tried names on which the loop condition fails. *)
Lemma generate_new_filename_returns (fs fs' : FS) (orig : Path) (dt : datetime)
    (fb : bool) :
  (if fb then Os.mkdir_exist_ok fs (PathOps.parent orig // "no-exif")
   else inr fs) = inr fs' →
  let d := target_dir_of orig fb in
  let ds := strftime dt in
  let ext := Str.lower (PathOps.suffix orig) in
  ∃ k, generate_new_filename fs orig dt fb = Return (fs', candidate d ds ext k) ∧
       (k ≤ size fs')%nat ∧
       taken fs' orig (candidate d ds ext k) = false ∧
       ∀ m, (m < k)%nat → taken fs' orig (candidate d ds ext m) = true.
Proof.
  intros Htarget d ds ext.
  destruct (free_candidate_exists fs' d ds ext) as (j & Hj & Hfree).
  destruct (resolve_conflict_first fs' orig d ds ext (S (size fs')) 0 j)
    as (k & Hk & Hkj & Hstop & Hbefore); [lia| |].
  { apply taken_false_iff. by left. }
  exists k. repeat split; [|lia|done|intros m Hm; apply Hbefore; lia].
  change (candidate d ds ext 0) with (d // (ds +:+ ext)) in Hk.
  subst d ds ext. unfold generate_new_filename.
  destruct fb; unfold target_dir_of in *.
  - rewrite Htarget, Hk. done.
  - injection Htarget as <-. rewrite Hk. done.
Qed.

(** It raises exactly when [mkdir] does. *)
Lemma generate_new_filename_raises (fs : FS) (orig : Path) (dt : datetime) (e : exn) :
  Os.mkdir_exist_ok fs (PathOps.parent orig // "no-exif") = inl e →
  generate_new_filename fs orig dt true = Raise e.
Proof. intros Hm. unfold generate_new_filename. by rewrite Hm. Qed.

Lemma generate_new_filename_cases (fs : FS) (orig : Path) (dt : datetime) (fb : bool) :
  (∃ e, fb = true ∧
        Os.mkdir_exist_ok fs (PathOps.parent orig // "no-exif") = inl e ∧
        generate_new_filename fs orig dt fb = Raise e) ∨
  (∃ fs' k,
      (if fb then Os.mkdir_exist_ok fs (PathOps.parent orig // "no-exif")
       else inr fs) = inr fs' ∧
      generate_new_filename fs orig dt fb =
        Return (fs', candidate (target_dir_of orig fb) (strftime dt)
                       (Str.lower (PathOps.suffix orig)) k) ∧
      taken fs' orig (candidate (target_dir_of orig fb) (strftime dt)
                        (Str.lower (PathOps.suffix orig)) k) = false ∧
      ∀ m, (m < k)%nat →
           taken fs' orig (candidate (target_dir_of orig fb) (strftime dt)
                             (Str.lower (PathOps.suffix orig)) m) = true).
Proof.
  destruct fb.
  - destruct (Os.mkdir_exist_ok fs (PathOps.parent orig // "no-exif"))
      as [e|fs'] eqn:Hm.
    + left. exists e. eauto using generate_new_filename_raises.
    + right.
      destruct (generate_new_filename_returns fs fs' orig dt true)
        as (k & ? & ? & ? & ?); [done|]. by exists fs', k.
  - right.
    destruct (generate_new_filename_returns fs fs orig dt false)
      as (k & ? & ? & ? & ?); [done|]. by exists fs, k.
Qed.

(** The loop of [generate_new_filename] always has fuel left. *)
Lemma generate_new_filename_total (fs : FS) (orig : Path) (dt : datetime) (fb : bool) :
  generate_new_filename fs orig dt fb ≠ OutOfFuel.
Proof.
  destruct (generate_new_filename_cases fs orig dt fb)
    as [(e & _ & _ & ->)|(fs' & k & _ & -> & _)]; done.
Qed.

End deriver_results.

(** ** One file at a time *)

Section steps.
Context `{Platform}.

(** [extract_date_taken] looks at nothing but the file it is given. *)
Lemma extract_date_taken_local (fs1 fs2 : FS) (p : Path) :
  fs1 !! p = fs2 !! p → extract_date_taken fs1 p = extract_date_taken fs2 p.
Proof. intros E. unfold extract_date_taken. by rewrite E. Qed.

(** Its three kinds of result. *)
Lemma extract_date_taken_cases (fs : FS) (p : Path) :
  (∃ e, extract_date_taken fs p =
          (None, false, [(Stderr, ErrorReadingMetadata p e)])) ∨
  (∃ f exif d, fs !! p = Some (File f) ∧ f_image f = Decoded exif ∧
               scan_exif exif = inr (Some d) ∧
               extract_date_taken fs p = (Some d, false, [])) ∨
  (∃ f exif d, fs !! p = Some (File f) ∧ f_image f = Decoded exif ∧
               scan_exif exif = inr None ∧
               fromtimestamp (f_mtime f) = Some d ∧
               extract_date_taken fs p = (Some d, true, [])).
Proof.
  unfold extract_date_taken.
  destruct (fs !! p) as [[wr|f]|]; [left; eauto| |left; eauto].
  destruct (f_image f) as [|exif] eqn:Hi; [left; eauto|].
  destruct (scan_exif exif) as [e|[d|]] eqn:Hs; [left; eauto| |].
  - right; left. by exists f, exif, d.
  - destruct (fromtimestamp (f_mtime f)) as [d|] eqn:Ht; [|left; eauto].
    right; right. by exists f, exif, d.
Qed.

Lemma extract_date_taken_Some (fs : FS) (p : Path) (d : datetime) (fb : bool)
    (said : list line) :
  extract_date_taken fs p = (Some d, fb, said) →
  said = [] ∧ ∃ f, fs !! p = Some (File f).
Proof.
  destruct (extract_date_taken_cases fs p)
    as [(e & ->)|[(f & exif & d' & Hp & _ & _ & ->)|(f & exif & d' & Hp & _ & _ & _ & ->)]];
    [done|intros [= -> <- <-]; eauto..].
Qed.

(** What [os.rename] does to a regular file whose destination is free. *)
Lemma rename_file_to_free (fs fs' : FS) (src dst : Path) (f : file) :
  fs !! src = Some (File f) → fs !! dst = None →
  Os.rename fs src dst = inr fs' → fs' = <[dst := File f]> (delete src fs).
Proof.
  intros Hs Hd. unfold Os.rename. rewrite Hs, Hd.
  destruct (Os.can_modify fs (PathOps.parent src)); [done|].
  destruct (Os.can_modify fs (PathOps.parent dst)); [done|].
  by intros [= <-].
Qed.

Lemma rename_inl_unless_writable (fs : FS) (src dst : Path) (f : file) :
  fs !! src = Some (File f) → fs !! dst = None →
  Os.can_modify fs (PathOps.parent src) = inr () →
  Os.can_modify fs (PathOps.parent dst) = inr () →
  Os.rename fs src dst = inr (<[dst := File f]> (delete src fs)).
Proof. intros Hs Hd Hps Hpd. unfold Os.rename. by rewrite Hs, Hd, Hps, Hpd. Qed.

Lemma echo_nil (w : World) : echo w [] = w.
Proof. destruct w. unfold echo. simpl. by rewrite app_nil_r. Qed.

Lemma process_image_kind (self : PicSorter) (w : World) (p : Path) :
  ∃ sig self' w', process_image self w p = (sig, self', w') ∧
                  step_kind self w p sig self' w'.
Proof.
  unfold process_image.
  destruct (extract_date_taken_cases (fs w) p)
    as [(e & He)|[(f & exif & dt & Hp & Hi & Hs & He)|(f & exif & dt & Hp & Hi & Hs & Ht & He)]].
  - rewrite He. eexists _, _, _. split; [done|].
    unfold echo at 1. simpl. unfold echo; simpl. rewrite <- app_assoc.
    apply (step_skipped self w p e He).
  - rewrite He, echo_nil.
    destruct (generate_new_filename_cases (fs w) p dt false)
      as [(e & [=] & _)|(fs1 & k & [= <-] & -> & Hfree & Hbefore)].
    destruct (rename_file (dry_run self) (fs w) p _) as [[ok fs2] said] eqn:Hr.
    pose proof (step_handled self w p dt false f (fs w) k ok fs2 said
                  Hp He eq_refl Hp Hfree Hbefore Hr) as Hk.
    rewrite andb_false_r, app_nil_r in Hk.
    destruct ok; eexists _, _, _; (split; [done|]); exact Hk.
  - rewrite He, echo_nil.
    destruct (generate_new_filename_cases (fs w) p dt true)
      as [(e & _ & Hm & ->)|(fs1 & k & Hm & -> & Hfree & Hbefore)].
    { eexists _, _, _. split; [done|]. by apply (step_aborted self w p dt e). }
    destruct (rename_file (dry_run self) fs1 p _) as [[ok fs2] said] eqn:Hr.
    assert (fs1 !! p = Some (File f)) as Hp1.
    { destruct (mkdir_exist_ok_inr _ _ _ Hm) as (_ & Hother & Hsame & _).
      destruct (decide (p = PathOps.parent p // "no-exif")) as [Heq|Hne].
      - rewrite Hsame; [done|]. rewrite <- Heq. eauto.
      - by rewrite Hother. }
    pose proof (step_handled self w p dt true f fs1 k ok fs2 said
                  Hp He Hm Hp1 Hfree Hbefore Hr) as Hk.
    rewrite andb_true_r in Hk.
    destruct ok; eexists _, _, _; (split; [done|]).
    + unfold echo; simpl. by rewrite <- app_assoc.
    + by rewrite app_nil_r in Hk.
Qed.

Lemma process_image_step (self self' : PicSorter) (w w' : World) (p : Path)
    (sig : signal) :
  process_image self w p = (sig, self', w') → step_kind self w p sig self' w'.
Proof.
  destruct (process_image_kind self w p) as (sig0 & self0 & w0 & -> & Hk).
  by intros [= <- <- <-].
Qed.

(** The loop never stops for lack of fuel. *)
Lemma process_image_no_fuel (self : PicSorter) (w : World) (p : Path) :
  (process_image self w p).1.1 ≠ Fuel.
Proof.
  destruct (process_image_kind self w p) as (sig & self' & w' & -> & Hk).
  simpl. by destruct Hk.
Qed.

End steps.

(** ** The metadata extractor *)

Section extractor.
Context `{Platform}.

(** Entries that are not date tags, and date tags whose text does not
    parse, are passed over. *)
Lemma scan_exif_skips (l1 l2 : list (Z * exif_value)) :
  Forall (λ item, is_date_tag (TAGS_get item.1) = true →
                  ∃ s, item.2 = ExifText s ∧ strptime s = None) l1 →
  scan_exif (l1 ++ l2) = scan_exif l2.
Proof.
  induction 1 as [|[tag_id value] l1 Hhead _ IH]; [done|].
  simpl in *. destruct (is_date_tag (TAGS_get tag_id)); [|done].
  destruct Hhead as (s & -> & ->); done.
Qed.

(** C9.  [extract_date_taken] never returns a missing timestamp together
    with a set fallback flag: when the timestamp is missing the flag is
    [False], and when the flag is [True] the timestamp is present and is
    the modification time of the file. *)
Theorem extract_date_taken_flag (fs : FS) (image_path : Path) :
  match extract_date_taken fs image_path with
  | (date_taken, is_fallback, _) =>
      (date_taken = None → is_fallback = false) ∧
      (is_fallback = true →
       ∃ f d, fs !! image_path = Some (File f) ∧
              fromtimestamp (f_mtime f) = Some d ∧ date_taken = Some d)
  end.
Proof.
  destruct (extract_date_taken_cases fs image_path)
    as [(e & ->)|[(f & exif & d & Hp & _ & _ & ->)|(f & exif & d & Hp & _ & _ & Ht & ->)]].
  - split; [done|]. intros [=].
  - split; [done|]. intros [=].
  - split; [done|]. intros _. by exists f, d.
Qed.

(** C3, as amended.  The entries are inspected in the order in which the
    EXIF mapping yields them, whichever of the three date tags they carry:
    the first date tag whose text parses gives the timestamp, provided the
    date tags before it hold text (that does not parse). *)
Theorem first_parsing_date_tag_wins (fs : FS) (image_path : Path) (f : file)
    (before after : list (Z * exif_value)) (tag_id : Z) (v : string)
    (d : datetime) :
  fs !! image_path = Some (File f) →
  f_image f = Decoded (before ++ (tag_id, ExifText v) :: after) →
  is_date_tag (TAGS_get tag_id) = true →
  strptime v = Some d →
  Forall (λ item, is_date_tag (TAGS_get item.1) = true →
                  ∃ s, item.2 = ExifText s ∧ strptime s = None) before →
  extract_date_taken fs image_path = (Some d, false, []).
Proof.
  intros Hp Hi Htag Hv Hbefore. unfold extract_date_taken.
  rewrite Hp, Hi, scan_exif_skips by done. simpl. by rewrite Htag, Hv.
Qed.

End extractor.


(** ** What the deriver returns *)

Section deriver_claims.
Context `{Platform}.

Lemma candidate_counter_suffix (d : Path) (ds ext : string) (i : nat) :
  candidate d ds ext i = d // (ds +:+ counter_suffix i +:+ ext).
Proof.
  destruct i as [|i]; [done|]. unfold candidate, counter_suffix.
  by rewrite StrFacts.append_assoc.
Qed.

Lemma candidate_parent (d : Path) (ds ext : string) (i : nat) :
  PathOps.parent (candidate d ds ext i) = d.
Proof. rewrite candidate_counter_suffix. apply parent_join. Qed.

Lemma candidate_first_free (fs : FS) (orig d : Path) (ds ext : string) (k k' : nat) :
  taken fs orig (candidate d ds ext k) = false →
  (∀ m, (m < k)%nat → taken fs orig (candidate d ds ext m) = true) →
  taken fs orig (candidate d ds ext k') = false →
  (∀ m, (m < k')%nat → taken fs orig (candidate d ds ext m) = true) →
  k = k'.
Proof.
  intros Hk Hbefore Hk' Hbefore'.
  destruct (Nat.lt_trichotomy k k') as [Hlt|[->|Hlt]]; [|done|].
  - rewrite Hbefore' in Hk by done. done.
  - rewrite Hbefore in Hk' by done. done.
Qed.

(** The name and the directory that the deriver gives a file whose
    timestamp has a year from 1000 on.  The date string has fourteen
    digits, which read back as year, month, day, hour, minute and second
    in this order; the name is the date string followed by the lowercased
    suffix of the original name, with the collision counter between the
    two, which is empty as soon as the plain name is free or is the
    file's own.  With a timestamp from EXIF the file stays in its
    directory and the file system is left as it is; with the fallback
    timestamp the destination is in [no-exif] under the original parent,
    which is a directory afterwards: kept when it was one, created when
    the name was free (in a writable parent). *)
Lemma derived_name_and_directory (fs : FS) (original_path : Path)
    (date_taken : datetime) :
  valid_datetime date_taken → (1000 ≤ year date_taken)%nat →
  let date_str := strftime date_taken in
  let extension := Str.lower (PathOps.suffix original_path) in
  let parent := PathOps.parent original_path in
  let no_exif := parent // "no-exif" in
  (String.length date_str = 14%nat ∧ Str.all_digits date_str = true ∧
   Str.to_nat (String.substring 0 4 date_str) = Some (year date_taken) ∧
   Str.to_nat (String.substring 4 2 date_str) = Some (month date_taken) ∧
   Str.to_nat (String.substring 6 2 date_str) = Some (day date_taken) ∧
   Str.to_nat (String.substring 8 2 date_str) = Some (hour date_taken) ∧
   Str.to_nat (String.substring 10 2 date_str) = Some (minute date_taken) ∧
   Str.to_nat (String.substring 12 2 date_str) = Some (second date_taken)) ∧
  (∃ k, generate_new_filename fs original_path date_taken false =
          Return (fs, parent // (date_str +:+ counter_suffix k +:+ extension)) ∧
        (taken fs original_path (parent // (date_str +:+ extension)) = false →
         k = 0%nat)) ∧
  (Os.is_dir fs no_exif = true → Os.mkdir_exist_ok fs no_exif = inr fs) ∧
  (fs !! no_exif = None → Os.can_modify fs parent = inr () →
   Os.mkdir_exist_ok fs no_exif = inr (<[no_exif := Dir true]> fs)) ∧
  (∀ fs', Os.mkdir_exist_ok fs no_exif = inr fs' →
     Os.is_dir fs' no_exif = true ∧
     ∃ k, generate_new_filename fs original_path date_taken true =
            Return (fs', no_exif // (date_str +:+ counter_suffix k +:+ extension)) ∧
          (taken fs' original_path (no_exif // (date_str +:+ extension)) = false →
           k = 0%nat)).
Proof.
  intros Hvalid Hyear date_str extension parent no_exif.
  subst date_str extension parent no_exif.
  split; [by apply StrFacts.strftime_14_digits|].
  split; [|split; [|split]].
  - destruct (generate_new_filename_returns fs fs original_path date_taken false)
      as (k & Hk & _ & Hfree & Hbefore); [done|].
    exists k. rewrite Hk, candidate_counter_suffix. split; [done|].
    intros Hplain. destruct k as [|k]; [done|].
    pose proof (Hbefore 0%nat ltac:(lia)) as H0.
    unfold candidate, target_dir_of in H0. congruence.
  - unfold Os.is_dir, Os.mkdir_exist_ok.
    by destruct (fs !! _) as [[wr|f]|].
  - intros Hnone Hparent. unfold Os.mkdir_exist_ok.
    by rewrite Hnone, parent_join, Hparent.
  - intros fs' Hmkdir.
    destruct (mkdir_exist_ok_inr _ _ _ Hmkdir) as (Hdir & _).
    split; [done|].
    destruct (generate_new_filename_returns fs fs' original_path date_taken true)
      as (k & Hk & _ & Hfree & Hbefore); [done|].
    exists k. rewrite Hk, candidate_counter_suffix. split; [done|].
    intros Hplain. destruct k as [|k]; [done|].
    pose proof (Hbefore 0%nat ltac:(lia)) as H0.
    unfold candidate, target_dir_of in H0. congruence.
Qed.

(** The deriver on a name that is taken: the counter starts at 1 and
    stops at the first name that is free or the file's own.  The counter is
    printed in digits that read back as the counter: two of them below
    100, and from 100 on as many as the number has, without a zero in
    front. *)
Lemma counter_on_taken_name (fs fs' : FS) (original_path : Path)
    (date_taken : datetime) (is_fallback : bool) :
  (if is_fallback
   then Os.mkdir_exist_ok fs (PathOps.parent original_path // "no-exif")
   else inr fs) = inr fs' →
  let target_dir := target_dir_of original_path is_fallback in
  let date_str := strftime date_taken in
  let extension := Str.lower (PathOps.suffix original_path) in
  let numbered (counter : nat) :=
    target_dir // (date_str +:+ "_" +:+ Str.fmt_02d counter +:+ extension) in
  taken fs' original_path (target_dir // (date_str +:+ extension)) = true →
  ∃ counter,
    (1 ≤ counter)%nat ∧
    generate_new_filename fs original_path date_taken is_fallback =
      Return (fs', numbered counter) ∧
    taken fs' original_path (numbered counter) = false ∧
    (∀ c, (1 ≤ c < counter)%nat → taken fs' original_path (numbered c) = true) ∧
    Str.all_digits (Str.fmt_02d counter) = true ∧
    Str.to_nat (Str.fmt_02d counter) = Some counter ∧
    ((counter < 100)%nat → String.length (Str.fmt_02d counter) = 2%nat) ∧
    ((100 ≤ counter)%nat →
     ∀ rest, Str.fmt_02d counter ≠ String "0"%char rest) ∧
    (taken fs' original_path (numbered 1) = false → counter = 1%nat) ∧
    (taken fs' original_path (numbered 1) = true →
     taken fs' original_path (numbered 2) = false → counter = 2%nat).
Proof.
  intros Htarget target_dir date_str extension numbered Hplain.
  destruct (generate_new_filename_returns fs fs' original_path date_taken
              is_fallback Htarget) as (k & Hk & _ & Hfree & Hbefore).
  fold target_dir date_str extension in Hk, Hfree, Hbefore.
  destruct k as [|k].
  { unfold candidate in Hfree. congruence. }
  assert (∀ c, (1 ≤ c)%nat →
               candidate target_dir date_str extension c = numbered c) as Hnum.
  { intros [|c] Hc; [lia|done]. }
  exists (S k). rewrite Hk, <- !Hnum by lia.
  split; [lia|]. split; [done|]. split; [done|].
  split; [|split; [|split; [|split; [|split; [|split]]]]].
  - intros c Hc. rewrite <- Hnum by lia. apply Hbefore. lia.
  - apply StrFacts.all_digits_fmt_02d.
  - apply StrFacts.to_nat_fmt_02d.
  - apply StrFacts.fmt_02d_two_digits.
  - intros Hk100 rest. rewrite StrFacts.fmt_02d_unpadded by lia.
    apply StrFacts.of_nat_no_leading_zero. lia.
  - intros H1. destruct k as [|k]; [done|].
    pose proof (Hbefore 1%nat ltac:(lia)). congruence.
  - intros H1 H2. destruct k as [|[|k]]; [congruence|done|].
    pose proof (Hbefore 2%nat ltac:(lia)). congruence.
Qed.

End deriver_claims.

(** ** The loop over the candidates *)

Section loop.
Context `{Platform}.

Lemma process_images_cons (self : PicSorter) (w : World) (p : Path)
    (rest : list Path) :
  process_images self w (p :: rest) =
  match process_image self w p with
  | (Next, self', w') => process_images self' w' rest
  | stopped => stopped
  end.
Proof. reflexivity. Qed.

(** A step keeps the mode of the run. *)
Lemma step_kind_dry_run (self self' : PicSorter) (w w' : World) (p : Path)
    (sig : signal) :
  step_kind self w p sig self' w' → dry_run self' = dry_run self.
Proof. destruct 1 as [| |? ? ? ? ? [|]]; done. Qed.

(** A step that goes on to the next file adds one to exactly one of the
    two counters. *)
Lemma step_kind_counts (self self' : PicSorter) (w w' : World) (p : Path) :
  step_kind self w p Next self' w' →
  ∃ ok : bool,
    processed_count self' = (processed_count self + if ok then 1 else 0)%nat ∧
    error_count self' = (error_count self + if ok then 0 else 1)%nat.
Proof.
  inversion 1 as [e He| |dt fb f fs1 k ok fs2 said]; subst.
  - exists false. simpl. lia.
  - exists ok. destruct ok; simpl; lia.
Qed.

Lemma process_images_counts (self self' : PicSorter) (w w' : World)
    (image_files : list Path) :
  process_images self w image_files = (Next, self', w') →
  ∃ oks : list bool,
    length oks = length image_files ∧
    processed_count self' =
      (processed_count self + length (List.filter id oks))%nat ∧
    error_count self' =
      (error_count self + length (List.filter negb oks))%nat.
Proof.
  revert self w. induction image_files as [|p rest IH]; intros self w.
  - intros [= <- <-]. exists []. simpl. lia.
  - rewrite process_images_cons.
    destruct (process_image self w p) as [[sig self1] w1] eqn:Hstep.
    apply process_image_step in Hstep.
    destruct sig; [|done..]. intros Hrest.
    destruct (step_kind_counts _ _ _ _ _ Hstep) as (ok & Hp & He).
    destruct (IH _ _ Hrest) as (oks & Hlen & Hps & Hes).
    exists (ok :: oks). destruct ok; simpl; lia.
Qed.

(** The loop itself never stops for lack of fuel. *)
Lemma process_images_no_fuel (self : PicSorter) (w : World)
    (image_files : list Path) :
  (process_images self w image_files).1.1 ≠ Fuel.
Proof.
  revert self w. induction image_files as [|p rest IH]; intros self w; [done|].
  rewrite process_images_cons.
  pose proof (process_image_no_fuel self w p) as Hp.
  destruct (process_image self w p) as [[[| |] self1] w1]; simpl in *; auto.
Qed.

(** [process_folder] always comes to an end. *)
Lemma process_folder_ends (self : PicSorter) (w : World) (folder_path : Path) :
  (process_folder self w folder_path).1.1 ≠ Unfinished.
Proof.
  unfold process_folder.
  destruct (negb (Os.path_exists (fs w) folder_path)); [done|].
  destruct (negb (Os.is_dir (fs w) folder_path)); [done|].
  destruct (find_image_files (fs w) folder_path) as [|p rest]; [done|].
  match goal with |- context [process_images ?s ?w0 ?l] =>
    pose proof (process_images_no_fuel s w0 l) as Hl;
    destruct (process_images s w0 l) as [[[| |] self1] w1] end; done.
Qed.

(** C10.  When [process_folder] returns, the two counters partition the
    candidates: there is one verdict per enumerated file,
    [processed_count] is the number of files that passed and
    [error_count] the number that did not, so that the two add up to the
    number of candidates. *)
Theorem counters_add_up (dry : bool) (w w' : World) (folder_path : Path)
    (self' : PicSorter) :
  process_folder (init dry) w folder_path = (Finished, self', w') →
  ∃ oks : list bool,
    length oks = length (find_image_files (fs w) folder_path) ∧
    processed_count self' = length (List.filter id oks) ∧
    error_count self' = length (List.filter negb oks) ∧
    (processed_count self' + error_count self')%nat =
      length (find_image_files (fs w) folder_path).
Proof.
  unfold process_folder.
  destruct (negb (Os.path_exists (fs w) folder_path)); [done|].
  destruct (negb (Os.is_dir (fs w) folder_path)); [done|].
  destruct (find_image_files (fs w) folder_path) as [|p rest] eqn:Hfiles.
  { intros [= <- <-]. by exists []. }
  match goal with |- context [process_images ?s ?w0 ?l] =>
    destruct (process_images s w0 l) as [[[| |] self1] w1] eqn:Hloop end;
    [|done..].
  intros [= <- <-].
  destruct (process_images_counts _ _ _ _ _ Hloop) as (oks & Hlen & Hp & He).
  exists oks. simpl in Hp, He.
  assert (length (List.filter id oks) + length (List.filter negb oks)
          = length oks)%nat as Hsplit.
  { clear. induction oks as [|[|] oks IH]; simpl; lia. }
  repeat split; [done|done|done|lia].
Qed.

End loop.

(** ** Destinations claimed in a run *)

Section claims_of_a_run.
Context `{Platform}.

Lemma claimed_snoc (tr : list (Path * Path * bool)) (p d : Path) (ok : bool) :
  claimed (tr ++ [(p, d, ok)]) = (claimed tr ++ if ok then [d] else [])%list.
Proof.
  unfold claimed. rewrite List.filter_app, fmap_app. by destruct ok.
Qed.

Lemma mkdir_keeps_entries (fs fs' : FS) (d q : Path) :
  Os.mkdir_exist_ok fs d = inr fs' → is_Some (fs !! q) → is_Some (fs' !! q).
Proof.
  intros Hm Hq. destruct (mkdir_exist_ok_inr _ _ _ Hm) as (Hdir & Hother & _).
  destruct (decide (q = d)) as [->|Hne]; [|by rewrite Hother].
  unfold Os.is_dir in Hdir. destruct (fs' !! d); [eauto|done].
Qed.

Lemma target_keeps_entries (fs fs' : FS) (p q : Path) (fb : bool) :
  (if fb then Os.mkdir_exist_ok fs (PathOps.parent p // "no-exif")
   else inr fs) = inr fs' →
  is_Some (fs !! q) → is_Some (fs' !! q).
Proof.
  destruct fb; [apply mkdir_keeps_entries|]. by intros [= <-].
Qed.

Lemma claims_on_disk_tail (w w' : World) (p : Path) (rest : list Path) :
  fs w' = fs w → derived w' = derived w →
  claims_on_disk w (p :: rest) → claims_on_disk w' rest.
Proof.
  intros Hfs Hder (Hnd & Hclaimed & Htodo). unfold claims_on_disk.
  rewrite Hfs, Hder. split; [done|]. split.
  - intros d Hd. destruct (Hclaimed d Hd) as [Hs Hn]. split; [done|set_solver].
  - intros q Hq. apply Htodo. set_solver.
Qed.

Lemma step_keeps_claims_on_disk (self self' : PicSorter) (w w' : World)
    (p : Path) (rest : list Path) (sig : signal) :
  dry_run self = false →
  NoDup (p :: rest) →
  claims_on_disk w (p :: rest) →
  step_kind self w p sig self' w' →
  claims_on_disk w' rest.
Proof.
  intros Hreal [Hp Hrest]%NoDup_cons Hinv Hstep.
  pose proof Hinv as (Hnd & Hclaimed & Htodo).
  inversion Hstep as [e He| |dt fb f fs1 k ok fs2 said Hf He Htarget Hf1 d Hfree Hbefore Hren];
    subst.
  - eapply claims_on_disk_tail; [| |exact Hinv]; done.
  - eapply claims_on_disk_tail; [| |exact Hinv]; done.
  - assert (∀ q, is_Some (fs w !! q) → is_Some (fs1 !! q)) as Hkeep
      by (intros q; by apply (target_keeps_entries _ _ p q fb)).
    apply taken_false_iff in Hfree.
    unfold rename_file in Hren. rewrite Hreal in Hren.
    unfold claims_on_disk. simpl. rewrite claimed_snoc.
    case_bool_decide as Hin_place.
    + (* the file already has its name *)
      injection Hren as <- <- <-. rewrite <- Hin_place.
      split; [|split].
      * apply NoDup_app. split; [done|]. split; [|apply NoDup_singleton].
        intros c Hc ->%list_elem_of_singleton.
        apply Hclaimed in Hc as [_ Hn]. set_solver.
      * intros c [Hc| ->%list_elem_of_singleton]%elem_of_app.
        -- apply Hclaimed in Hc as [Hc Hn]. split; [auto|set_solver].
        -- split; [eauto|done].
      * intros q Hq. apply Hkeep, Htodo. set_solver.
    + destruct Hfree as [Hfree|Hsame]; [|congruence].
      destruct (Os.rename fs1 p d) as [e|fs3] eqn:Hos.
      * (* the rename failed *)
        injection Hren as <- <- <-. rewrite app_nil_r.
        split; [done|]. split.
        -- intros c Hc. apply Hclaimed in Hc as [Hc Hn]. split; [auto|set_solver].
        -- intros q Hq. apply Hkeep, Htodo. set_solver.
      * (* the rename was made *)
        injection Hren as <- <- <-.
        apply (rename_file_to_free _ _ _ _ f) in Hos; [|done..]. subst fs3.
        assert (d ∉ claimed (derived w)) as Hnew.
        { intros Hc. apply Hclaimed in Hc as [Hc%Hkeep _].
          rewrite Hfree in Hc. by apply is_Some_None in Hc. }
        split; [|split].
        -- apply NoDup_app. split; [done|]. split; [|apply NoDup_singleton].
           by intros c Hc ->%list_elem_of_singleton.
        -- intros c [Hc| ->%list_elem_of_singleton]%elem_of_app.
           ++ apply Hclaimed in Hc as [Hc Hn]. split; [|set_solver].
              destruct (decide (c = d)) as [->|Hcd]; [by rewrite lookup_insert_eq|].
              rewrite lookup_insert_ne, lookup_delete_ne by set_solver. auto.
           ++ split; [by rewrite lookup_insert_eq|].
              intros Hd. assert (is_Some (fs1 !! d)) as Hs
                by (apply Hkeep, Htodo; set_solver).
              rewrite Hfree in Hs. by apply is_Some_None in Hs.
        -- intros q Hq.
           destruct (decide (q = d)) as [->|Hqd]; [by rewrite lookup_insert_eq|].
           rewrite lookup_insert_ne, lookup_delete_ne by set_solver.
           apply Hkeep, Htodo. set_solver.
Qed.

Lemma claimed_lookup (tr : list (Path * Path * bool)) (i : nat) (p d : Path) :
  tr !! i = Some (p, d, true) → d ∈ claimed tr.
Proof.
  intros Hi. unfold claimed. apply list_elem_of_fmap. exists (p, d, true).
  split; [done|]. apply list_elem_of_In, List.filter_In. split; [|done].
  apply list_elem_of_In. by eapply list_elem_of_lookup_2.
Qed.

Lemma never_reclaimed_snoc (tr : list (Path * Path * bool)) (p d : Path)
    (ok : bool) :
  never_reclaimed tr → d ∉ claimed tr → never_reclaimed (tr ++ [(p, d, ok)]).
Proof.
  intros Htr Hd i j p_i d_i p_j d_j ok_j Hij Hi Hj.
  assert (j < length (tr ++ [(p, d, ok)]))%nat as Hlen
    by (by eapply lookup_lt_Some).
  rewrite length_app in Hlen. simpl in Hlen.
  rewrite lookup_app_l in Hi by lia.
  destruct (decide (j < length tr)%nat) as [Hin|Hlast].
  - rewrite lookup_app_l in Hj by done.
    exact (Htr i j p_i d_i p_j d_j ok_j Hij Hi Hj).
  - assert (j = length tr) as -> by lia.
    rewrite list_lookup_middle in Hj by done. injection Hj as <- <- <-.
    intros ->. apply Hd. exact (claimed_lookup tr i p_i d_i Hi).
Qed.

(** The destination of a step is not among the claimed ones. *)
Lemma step_destination_unclaimed (self self' : PicSorter) (w w' : World)
    (p : Path) (rest : list Path) (sig : signal) :
  claims_on_disk w (p :: rest) →
  step_kind self w p sig self' w' →
  never_reclaimed (derived w) → never_reclaimed (derived w').
Proof.
  intros (Hnd & Hclaimed & Htodo) Hstep Htr.
  inversion Hstep as [e He| |dt fb f fs1 k ok fs2 said Hf He Htarget Hf1 d Hfree Hbefore Hren];
    subst; [done..|].
  simpl. apply never_reclaimed_snoc; [done|].
  intros Hd. apply Hclaimed in Hd as [Hon_disk Hnot_todo].
  apply (target_keeps_entries _ _ p d fb Htarget) in Hon_disk.
  apply taken_false_iff in Hfree as [Hfree|Hown].
  - rewrite Hfree in Hon_disk. by apply is_Some_None in Hon_disk.
  - apply Hnot_todo. rewrite Hown. set_solver.
Qed.

Lemma process_images_claims (self self' : PicSorter) (w w' : World)
    (image_files : list Path) (sig : signal) :
  dry_run self = false →
  NoDup image_files →
  claims_on_disk w image_files →
  never_reclaimed (derived w) →
  process_images self w image_files = (sig, self', w') →
  never_reclaimed (derived w') ∧ NoDup (claimed (derived w')).
Proof.
  revert self w.
  induction image_files as [|p rest IH]; intros self w Hreal Hnd Hinv Htr.
  - intros [= <- <- <-]. split; [done|apply Hinv].
  - rewrite process_images_cons.
    destruct (process_image self w p) as [[sig1 self1] w1] eqn:Hstep.
    apply process_image_step in Hstep.
    pose proof (step_keeps_claims_on_disk _ _ _ _ _ _ _ Hreal Hnd Hinv Hstep) as Hinv1.
    pose proof (step_destination_unclaimed _ _ _ _ _ _ _ Hinv Hstep Htr) as Htr1.
    pose proof (step_kind_dry_run _ _ _ _ _ _ Hstep) as Hreal1.
    rewrite Hreal in Hreal1. apply NoDup_cons in Hnd as [_ Hnd].
    destruct sig1; [by apply IH|intros [= <- <- <-]; split; [done|apply Hinv1]..].
Qed.

(** The candidates of [find_image_files] are pairwise different, and each
    is a file on disk. *)
Lemma find_image_files_NoDup (fs : FS) (folder_path : Path) :
  NoDup (find_image_files fs folder_path).
Proof.
  unfold find_image_files. apply NoDup_ListNoDup, List.NoDup_filter.
  apply NoDup_ListNoDup, NoDup_fst_map_to_list.
Qed.

Lemma find_image_files_on_disk (fs : FS) (folder_path p : Path) :
  p ∈ find_image_files fs folder_path → is_Some (fs !! p).
Proof.
  unfold find_image_files. rewrite list_elem_of_In, List.filter_In.
  intros [_ [[Hfile _]%andb_prop _]%andb_prop].
  unfold Os.is_file in Hfile. destruct (fs !! p); [eauto|done].
Qed.

(** C6, as amended.  In a run without [--dry-run], no destination that
    [generate_new_filename] returns, accepted by [rename_file] or not, is
    a destination claimed earlier in the run, that is, one that
    [rename_file] accepted for an earlier file; in particular the claimed
    destinations are pairwise different. *)
Theorem destinations_never_reclaimed (fs0 : FS) (out : list line)
    (folder_path : Path) :
  let tr := derived (process_folder (init false) (mk_World fs0 out [])
                                    folder_path).2 in
  never_reclaimed tr ∧ NoDup (claimed tr).
Proof.
  assert (never_reclaimed [] ∧ NoDup (claimed [])) as Hnil.
  { split; [|apply NoDup_nil_2]. intros i j p_i d_i p_j d_j ok_j _ Hi. done. }
  unfold process_folder. simpl.
  destruct (negb (Os.path_exists fs0 folder_path)); [exact Hnil|].
  destruct (negb (Os.is_dir fs0 folder_path)); [exact Hnil|].
  destruct (find_image_files fs0 folder_path) as [|p rest] eqn:Hfiles;
    [exact Hnil|].
  match goal with |- context [process_images ?s ?w0 ?l] =>
    destruct (process_images s w0 l) as [[sig self1] w1] eqn:Hloop end.
  apply process_images_claims in Hloop; [|done|..].
  - destruct sig; simpl; [|done..]. by destruct (0 <? error_count self1)%nat.
  - rewrite <- Hfiles. apply find_image_files_NoDup.
  - split; [apply NoDup_nil_2|]. split; [by intros d Hd%elem_of_nil|].
    intros q Hq. simpl. rewrite <- Hfiles in Hq.
    by apply find_image_files_on_disk in Hq.
  - apply Hnil.
Qed.

End claims_of_a_run.

(** ** Real runs: files that derive one name *)

Section real_runs.
Context `{Platform}.

Lemma candidate_ne_dir (d : Path) (ds ext : string) (k : nat) :
  candidate d ds ext k ≠ d.
Proof. rewrite candidate_counter_suffix. apply join_ne_self. Qed.

(** A step adds at most one to [processed_count]. *)
Lemma step_processed_bounds (self self' : PicSorter) (w w' : World) (p : Path)
    (sig : signal) :
  step_kind self w p sig self' w' →
  (processed_count self ≤ processed_count self' ≤ S (processed_count self))%nat.
Proof. destruct 1 as [| |? ? ? ? ? [|]]; simpl; lia. Qed.

Lemma process_images_processed_bounds (self self' : PicSorter) (w w' : World)
    (image_files : list Path) (sig : signal) :
  process_images self w image_files = (sig, self', w') →
  (processed_count self ≤ processed_count self'
   ≤ processed_count self + length image_files)%nat.
Proof.
  revert self w. induction image_files as [|p rest IH]; intros self w.
  - intros [= <- <- <-]. simpl. lia.
  - rewrite process_images_cons.
    destruct (process_image self w p) as [[sig1 self1] w1] eqn:Hstep.
    apply process_image_step, step_processed_bounds in Hstep.
    destruct sig1; [intros Hrest%IH|intros [= <- <- <-]..]; simpl; lia.
Qed.

(** The file system once the target directory of [p] is there: entries
    that existed are as they were, and so is every path but the
    directory itself. *)
Lemma target_same_lookups (fs fs1 : FS) (p : Path) (fb : bool) :
  (if fb then Os.mkdir_exist_ok fs (PathOps.parent p // "no-exif")
   else inr fs) = inr fs1 →
  (∀ q, is_Some (fs !! q) → fs1 !! q = fs !! q) ∧
  (∀ q, q ≠ target_dir_of p fb → fs1 !! q = fs !! q).
Proof.
  destruct fb; [|by intros [= <-]].
  intros (_ & Hother & Hsame & _)%mkdir_exist_ok_inr. split; [|done].
  intros q Hq. destruct (decide (q = PathOps.parent p // "no-exif")) as [->|Hne].
  - by rewrite Hsame.
  - by apply Hother.
Qed.

(** A real step that counts its file as processed, on a file whose first
    [k] names are occupied by other entries and whose [k]-th name is
    free: the file moves to that name, and nothing else changes but,
    possibly, a new target directory. *)
Lemma accepted_step_moves (self self' : PicSorter) (w w' : World) (p dir : Path)
    (ds ext : string) (sig : signal) (k : nat) :
  dry_run self = false →
  step_kind self w p sig self' w' →
  derives (fs w) p dir ds ext →
  processed_count self' = S (processed_count self) →
  (∀ m, (m < k)%nat → is_Some (fs w !! candidate dir ds ext m) ∧
                      candidate dir ds ext m ≠ p) →
  fs w !! candidate dir ds ext k = None →
  ∃ f, fs w !! p = Some (File f) ∧ sig = Next ∧ dry_run self' = false ∧
       derived w' = (derived w ++ [(p, candidate dir ds ext k, true)])%list ∧
       fs w' !! candidate dir ds ext k = Some (File f) ∧
       (∀ q, is_Some (fs w !! q) → q ≠ p → fs w' !! q = fs w !! q) ∧
       (∀ q, fs w !! q = None → q ≠ dir → q ≠ candidate dir ds ext k →
             fs w' !! q = None).
Proof.
  intros Hreal Hstep (dt & fb & He & Hdir & Hds & Hext) Hcount Hbelow Hfree.
  inversion Hstep as [e He'| dt' e He' |dt' fb' f fs1 k' ok fs2 said Hf He' Htarget Hf1 d' Hfree' Hbefore' Hren];
    subst sig self' w'; [simpl in Hcount; lia|lia|].
  rewrite He in He'. injection He' as <- <-.
  destruct ok; [|simpl in Hcount; lia].
  destruct (target_same_lookups _ _ _ _ Htarget) as [Hsame Hoff].
  subst d'. rewrite Hdir, Hds, Hext in *.
  assert (k' = k) as ->.
  { eapply candidate_first_free; [exact Hfree'|exact Hbefore'| |].
    - apply taken_false_iff. left.
      rewrite Hoff by apply candidate_ne_dir. done.
    - intros m Hm. destruct (Hbelow m Hm) as [Hm1 Hm2].
      apply taken_true_iff. split; [|done]. by rewrite Hsame. }
  assert (fs1 !! candidate dir ds ext k = None) as Hfree1
    by (by rewrite Hoff by apply candidate_ne_dir).
  assert (p ≠ candidate dir ds ext k) as Hne by congruence.
  unfold rename_file in Hren.
  rewrite Hreal, bool_decide_eq_false_2 in Hren by done.
  destruct (Os.rename fs1 p (candidate dir ds ext k)) as [e|fs3] eqn:Hos;
    [done|].
  injection Hren as <- <-.
  apply (rename_file_to_free _ _ _ _ f) in Hos; [|done..]. subst fs3.
  exists f. simpl. split; [done|]. split; [done|]. split; [done|].
  split; [done|]. split; [by rewrite lookup_insert_eq|]. split.
  - intros q Hq Hqp.
    assert (q ≠ candidate dir ds ext k) as Hqk.
    { intros ->. rewrite Hfree in Hq. by apply is_Some_None in Hq. }
    rewrite lookup_insert_ne, lookup_delete_ne by done. by apply Hsame.
  - intros q Hq Hqd Hqk. rewrite lookup_insert_ne by done.
    destruct (decide (q = p)) as [->|Hqp]; [apply lookup_delete_eq|].
    rewrite lookup_delete_ne by done. by rewrite Hoff.
Qed.

Lemma derives_local (fs1 fs2 : FS) (p dir : Path) (ds ext : string) :
  fs2 !! p = fs1 !! p → derives fs1 p dir ds ext → derives fs2 p dir ds ext.
Proof.
  intros E (dt & fb & He & Hrest). exists dt, fb. split; [|done].
  rewrite <- He. by apply extract_date_taken_local.
Qed.

Lemma derives_on_disk (fs : FS) (p dir : Path) (ds ext : string) :
  derives fs p dir ds ext → is_Some (fs !! p).
Proof.
  intros (dt & fb & He & _). apply extract_date_taken_Some in He as [_ [f ->]].
  eauto.
Qed.

(** Three files that derive one plain name, processed one after the
    other by a real run that counts all three as processed: the first
    gets the plain name, the second the counter 01, the third the
    counter 02. *)
Lemma three_files_one_name (self self' : PicSorter) (w w' : World)
    (a b c dir : Path) (date_str ext : string) (sig : signal) :
  dry_run self = false →
  NoDup [a; b; c] →
  Forall (λ p, derives (fs w) p dir date_str ext) [a; b; c] →
  let first := dir // (date_str +:+ ext) in
  let second := dir // (date_str +:+ "_01" +:+ ext) in
  let third := dir // (date_str +:+ "_02" +:+ ext) in
  fs w !! first = None → fs w !! second = None → fs w !! third = None →
  process_images self w [a; b; c] = (sig, self', w') →
  processed_count self' = (processed_count self + 3)%nat →
  sig = Next ∧
  derived w' = (derived w ++ [(a, first, true); (b, second, true);
                              (c, third, true)])%list ∧
  fs w' !! first = fs w !! a ∧ fs w' !! second = fs w !! b ∧
  fs w' !! third = fs w !! c.
Proof.
  intros Hreal Hnd Hall first second third H0 H1 H2 Hrun Hcount.
  apply Forall_cons in Hall as [Hda Hall].
  apply Forall_cons in Hall as [Hdb Hall].
  apply Forall_cons in Hall as [Hdc _].
  pose proof (derives_on_disk _ _ _ _ _ Hda) as Ha.
  pose proof (derives_on_disk _ _ _ _ _ Hdb) as Hb.
  pose proof (derives_on_disk _ _ _ _ _ Hdc) as Hc.
  apply NoDup_cons in Hnd as [Hab Hnd]. apply NoDup_cons in Hnd as [Hbc _].
  assert (a ≠ b ∧ a ≠ c ∧ b ≠ c) as (Nab & Nac & Nbc) by set_solver.
  change first with (candidate dir date_str ext 0) in *.
  change second with (candidate dir date_str ext 1) in *.
  change third with (candidate dir date_str ext 2) in *.
  set (c0 := candidate dir date_str ext 0) in *.
  set (c1 := candidate dir date_str ext 1) in *.
  set (c2 := candidate dir date_str ext 2) in *.
  assert (c0 ≠ c1 ∧ c0 ≠ c2 ∧ c1 ≠ c2) as (N01 & N02 & N12).
  { repeat split; intros E%candidate_inj; lia. }
  assert (c0 ≠ dir ∧ c1 ≠ dir ∧ c2 ≠ dir) as (N0d & N1d & N2d)
    by (repeat split; apply candidate_ne_dir).
  assert (∀ p q : Path, is_Some (fs w !! p) → fs w !! q = None → p ≠ q) as Hdiff.
  { intros p q Hp Hq ->. rewrite Hq in Hp. by apply is_Some_None in Hp. }
  assert (c0 ≠ b ∧ c0 ≠ c ∧ c1 ≠ c) as (N0b & N0c & N1c).
  { repeat split; apply not_eq_sym, Hdiff; done. }
  (* first file *)
  rewrite process_images_cons in Hrun.
  destruct (process_image self w a) as [[sig1 self1] w1] eqn:Hstep1.
  apply process_image_step in Hstep1.
  pose proof (step_processed_bounds _ _ _ _ _ _ Hstep1) as Hb1.
  assert (process_images self1 w1 [b; c] = (sig, self', w') ∧
          processed_count self1 = S (processed_count self)) as [Hrun1 Hc1].
  { destruct sig1.
    - split; [done|].
      apply process_images_processed_bounds in Hrun. simpl in Hrun. lia.
    - injection Hrun as <- <- <-. lia.
    - injection Hrun as <- <- <-. lia. }
  clear Hrun.
  destruct (accepted_step_moves _ _ _ _ _ _ _ _ _ 0 Hreal Hstep1 Hda Hc1)
    as (fa & Hfa & _ & Hreal1 & Hder1 & Hat0 & Hkept1 & Hfree1);
    [intros m Hm; lia|done|]. fold c0 in Hder1, Hat0, Hfree1.
  (* second file *)
  rewrite process_images_cons in Hrun1.
  destruct (process_image self1 w1 b) as [[sig2 self2] w2] eqn:Hstep2.
  apply process_image_step in Hstep2.
  pose proof (step_processed_bounds _ _ _ _ _ _ Hstep2) as Hb2.
  assert (process_images self2 w2 [c] = (sig, self', w') ∧
          processed_count self2 = S (processed_count self1)) as [Hrun2 Hc2].
  { destruct sig2.
    - split; [done|].
      apply process_images_processed_bounds in Hrun1. simpl in Hrun1. lia.
    - injection Hrun1 as <- <- <-. lia.
    - injection Hrun1 as <- <- <-. lia. }
  clear Hrun1.
  assert (derives (fs w1) b dir date_str ext) as Hdb1.
  { eapply derives_local; [|exact Hdb]. apply Hkept1; [done|by apply not_eq_sym]. }
  destruct (accepted_step_moves _ _ _ _ _ _ _ _ _ 1 Hreal1 Hstep2 Hdb1 Hc2)
    as (fb & Hfb & _ & Hreal2 & Hder2 & Hat1 & Hkept2 & Hfree2).
  { intros [|m] Hm; [|lia]. fold c0. rewrite Hat0. eauto. }
  { fold c1. by apply Hfree1. }
  fold c1 in Hder2, Hat1, Hfree2.
  (* third file *)
  rewrite process_images_cons in Hrun2.
  destruct (process_image self2 w2 c) as [[sig3 self3] w3] eqn:Hstep3.
  apply process_image_step in Hstep3.
  pose proof (step_processed_bounds _ _ _ _ _ _ Hstep3) as Hb3.
  assert (self3 = self' ∧ w3 = w' ∧ (sig3 = Next → sig = Next))
    as (-> & -> & Hsig) by (destruct sig3; by injection Hrun2 as <- <- <-).
  assert (fs w1 !! c = fs w !! c) as Hc_w1
    by (apply Hkept1; [done|by apply not_eq_sym]).
  assert (fs w2 !! c = fs w !! c) as Hc_w2.
  { rewrite <- Hc_w1. apply Hkept2; [by rewrite Hc_w1|by apply not_eq_sym]. }
  assert (derives (fs w2) c dir date_str ext) as Hdc2
    by (eapply derives_local; [exact Hc_w2|exact Hdc]).
  assert (fs w2 !! c0 = Some (File fa)) as Hat0_2.
  { rewrite <- Hat0. apply Hkept2; [by rewrite Hat0|done]. }
  destruct (accepted_step_moves _ _ _ _ _ _ _ _ _ 2 Hreal2 Hstep3 Hdc2
              ltac:(lia))
    as (fc & Hfc & -> & _ & Hder3 & Hat2 & Hkept3 & _).
  { intros [|[|m]] Hm; [| |lia].
    - fold c0. rewrite Hat0_2. eauto.
    - fold c1. rewrite Hat1. eauto. }
  { fold c2. apply Hfree2; [|done..]. by apply Hfree1. }
  fold c2 in Hder3, Hat2.
  split; [by apply Hsig|]. split.
  { rewrite Hder3, Hder2, Hder1, <- !app_assoc. done. }
  split; [|split].
  - rewrite Hkept3 by (by rewrite ?Hat0_2). rewrite Hat0_2. congruence.
  - rewrite Hkept3 by (by rewrite ?Hat1).
    rewrite Hat1, <- Hfb. apply Hkept1; [done|by apply not_eq_sym].
  - rewrite Hat2. congruence.
Qed.

End real_runs.

(** C4, as amended.  When the plain name is taken (it exists and is not
    the file itself), the deriver puts a counter between date and
    extension, starting at 1 and stopping at the first name that is free
    or the file's own; the counter is printed zero-padded to two digits
    ([_01] ... [_99]) and from 100 on with the digits it has.  In a run
    without [--dry-run], among three files that derive one plain name
    (one target directory, one date string, one extension, with or
    without the fallback), free before the run with its two successors,
    and that the run counts as processed, the second file processed
    receives [_01] and the third [_02]. *)
Theorem collision_counter `{Platform} :
  (∀ (fs fs' : FS) (original_path : Path) (date_taken : datetime)
     (is_fallback : bool),
     (if is_fallback
      then Os.mkdir_exist_ok fs (PathOps.parent original_path // "no-exif")
      else inr fs) = inr fs' →
     let target_dir := target_dir_of original_path is_fallback in
     let date_str := strftime date_taken in
     let extension := Str.lower (PathOps.suffix original_path) in
     let numbered (counter : nat) :=
       target_dir // (date_str +:+ "_" +:+ Str.fmt_02d counter +:+ extension) in
     taken fs' original_path (target_dir // (date_str +:+ extension)) = true →
     ∃ counter,
       (1 ≤ counter)%nat ∧
       generate_new_filename fs original_path date_taken is_fallback =
         Return (fs', numbered counter) ∧
       taken fs' original_path (numbered counter) = false ∧
       (∀ c, (1 ≤ c < counter)%nat →
             taken fs' original_path (numbered c) = true) ∧
       Str.all_digits (Str.fmt_02d counter) = true ∧
       Str.to_nat (Str.fmt_02d counter) = Some counter ∧
       ((counter < 100)%nat → String.length (Str.fmt_02d counter) = 2%nat) ∧
       ((100 ≤ counter)%nat →
        ∀ rest, Str.fmt_02d counter ≠ String "0"%char rest) ∧
       (taken fs' original_path (numbered 1) = false → counter = 1%nat) ∧
       (taken fs' original_path (numbered 1) = true →
        taken fs' original_path (numbered 2) = false → counter = 2%nat)) ∧
  (∀ (self self' : PicSorter) (w w' : World) (a b c dir : Path)
     (date_str ext : string) (sig : signal),
     dry_run self = false →
     NoDup [a; b; c] →
     Forall (λ p, derives (fs w) p dir date_str ext) [a; b; c] →
     let first := dir // (date_str +:+ ext) in
     let second := dir // (date_str +:+ "_01" +:+ ext) in
     let third := dir // (date_str +:+ "_02" +:+ ext) in
     fs w !! first = None → fs w !! second = None → fs w !! third = None →
     process_images self w [a; b; c] = (sig, self', w') →
     processed_count self' = (processed_count self + 3)%nat →
     sig = Next ∧
     derived w' = (derived w ++ [(a, first, true); (b, second, true);
                                 (c, third, true)])%list ∧
     fs w' !! first = fs w !! a ∧ fs w' !! second = fs w !! b ∧
     fs w' !! third = fs w !! c).
Proof.
  split.
  - intros fs fs' original_path date_taken is_fallback.
    apply counter_on_taken_name.
  - intros self self' w w' a b c dir date_str ext sig.
    apply three_files_one_name.
Qed.

(** ** Dry runs *)

Section dry_runs.
Context `{Platform}.

(** A dry step changes the file system in one way at most: it creates
    the [no-exif] directory of the file. *)
Lemma dry_step_file_system (self self' : PicSorter) (w w' : World) (p : Path)
    (sig : signal) :
  dry_run self = true →
  step_kind self w p sig self' w' →
  fs w' = fs w ∨
  (fs w !! (PathOps.parent p // "no-exif") = None ∧
   fs w' = <[PathOps.parent p // "no-exif" := Dir true]> (fs w)).
Proof.
  intros Hdry Hstep.
  inversion Hstep as [e He| |dt fb f fs1 k ok fs2 said Hf He Htarget Hf1 d Hfree Hbefore Hren];
    subst; [by left..|].
  assert (fs2 = fs1) as ->.
  { unfold rename_file in Hren. rewrite Hdry in Hren.
    case_bool_decide; by injection Hren as <- <- <-. }
  simpl. destruct fb; [|injection Htarget as <-; by left].
  destruct (mkdir_exist_ok_inr _ _ _ Htarget) as (_ & _ & Hsame & Hnew).
  destruct (fs w !! (PathOps.parent p // "no-exif")) as [n|] eqn:Hn.
  - left. apply Hsame. eauto.
  - right. split; [done|]. by apply Hnew.
Qed.

(** A dry run keeps every entry of the file system as it is; all it may
    add are [no-exif] directories next to candidates. *)
Lemma dry_run_keeps_entries (self self' : PicSorter) (w w' : World)
    (image_files : list Path) (sig : signal) :
  dry_run self = true →
  process_images self w image_files = (sig, self', w') →
  ∀ q, fs w' !! q = fs w !! q ∨
       (fs w !! q = None ∧ fs w' !! q = Some (Dir true) ∧
        ∃ p, p ∈ image_files ∧ q = PathOps.parent p // "no-exif").
Proof.
  revert self w. induction image_files as [|p rest IH]; intros self w Hdry.
  - intros [= <- <- <-] q. by left.
  - rewrite process_images_cons.
    destruct (process_image self w p) as [[sig1 self1] w1] eqn:Hstep.
    apply process_image_step in Hstep.
    pose proof (dry_step_file_system _ _ _ _ _ _ Hdry Hstep) as Hfs.
    pose proof (step_kind_dry_run _ _ _ _ _ _ Hstep) as Hdry1.
    rewrite Hdry in Hdry1.
    assert (∀ q, fs w1 !! q = fs w !! q ∨
                 (fs w !! q = None ∧ fs w1 !! q = Some (Dir true) ∧
                  q = PathOps.parent p // "no-exif")) as Hfirst.
    { intros q. destruct Hfs as [->|[Hnone ->]]; [by left|].
      destruct (decide (q = PathOps.parent p // "no-exif")) as [->|Hne].
      - right. by rewrite lookup_insert_eq.
      - left. by rewrite lookup_insert_ne. }
    destruct sig1; [|intros [= <- <- <-] q..].
    + intros Hloop q.
      destruct (IH self1 w1 Hdry1 Hloop q) as [E2|(Hn' & Hd' & p' & Hp' & Hq)],
               (Hfirst q) as [E1|(Hn & Hd & Hq1)].
      * left. congruence.
      * right. rewrite E2. repeat split; [done..|]. exists p. set_solver.
      * right. rewrite <- E1. repeat split; [done..|]. exists p'. set_solver.
      * congruence.
    + destruct (Hfirst q) as [E1|(Hn & Hd & ->)]; [by left|].
      right. repeat split; [done..|]. exists p. set_solver.
    + destruct (Hfirst q) as [E1|(Hn & Hd & ->)]; [by left|].
      right. repeat split; [done..|]. exists p. set_solver.
Qed.

(** From one and the same file system, a dry step reports the rename
    that the real step makes. *)
Lemma dry_report_matches_real_step (fs fs' : FS) (original_path new_path : Path)
    (said : list line) :
  rename_file false fs original_path new_path = (true, fs', said) →
  original_path ≠ new_path →
  said = [(Stdout, Renamed (PathOps.name original_path) (PathOps.name new_path))] ∧
  rename_file true fs original_path new_path =
    (true, fs, [(Stdout, WouldRename (PathOps.name original_path)
                                     (PathOps.name new_path))]).
Proof.
  unfold rename_file. intros Hreal Hne.
  rewrite bool_decide_eq_false_2 in Hreal |- * by done.
  destruct (Os.rename fs original_path new_path); [done|].
  by injection Hreal as <- <-.
Qed.

End dry_runs.

(** ** Failures *)

Section failures.
Context `{Platform}.

(** A file whose metadata cannot be read is counted as an error, the file
    system is left alone and the loop goes on with the next file. *)
Lemma unreadable_file_is_counted (self : PicSorter) (w : World) (p : Path)
    (rest : list Path) (said : list line) :
  extract_date_taken (fs w) p = (None, false, said) →
  process_images self w (p :: rest) =
  process_images (count_error self)
    (echo (echo w said) [(Stderr, Skipping (PathOps.name p))]) rest.
Proof.
  intros He. rewrite process_images_cons. unfold process_image. by rewrite He.
Qed.

(** So is a file whose rename fails. *)
Lemma failed_rename_is_counted (self : PicSorter) (w : World) (p new_path : Path)
    (rest : list Path) (dt : datetime) (fb : bool) (fs1 : FS) (e : exn) :
  dry_run self = false →
  extract_date_taken (fs w) p = (Some dt, fb, []) →
  generate_new_filename (fs w) p dt fb = Return (fs1, new_path) →
  p ≠ new_path →
  Os.rename fs1 p new_path = inl e →
  process_images self w (p :: rest) =
  process_images (count_error self)
    (mk_World fs1 (output w ++ [(Stderr, ErrorRenaming p new_path e)])
              (derived w ++ [(p, new_path, false)])) rest.
Proof.
  intros Hreal He Hg Hne Hos. rewrite process_images_cons. unfold process_image.
  rewrite He, echo_nil, Hg. unfold rename_file.
  by rewrite bool_decide_eq_false_2, Hreal, Hos.
Qed.

(** The loop is left early in one case only: the fallback timestamp is in
    use and [mkdir] raises. *)
Lemma loop_left_only_by_mkdir (self self' : PicSorter) (w w' : World)
    (image_files : list Path) (e : exn) :
  process_images self w image_files = (Uncaught e, self', w') →
  ∃ p dt, p ∈ image_files ∧
          extract_date_taken (fs w') p = (Some dt, true, []) ∧
          Os.mkdir_exist_ok (fs w') (PathOps.parent p // "no-exif") = inl e.
Proof.
  revert self w. induction image_files as [|p rest IH]; intros self w; [done|].
  rewrite process_images_cons.
  destruct (process_image self w p) as [[sig1 self1] w1] eqn:Hstep.
  apply process_image_step in Hstep. destruct sig1.
  - intros (q & dt & Hq & Hr)%IH. exists q, dt. split; [set_solver|done].
  - intros [= <- <- <-]. inversion Hstep; subst. exists p, dt.
    split; [set_solver|done].
  - done.
Qed.

(** An invalid root ends the run before anything is looked at: the exit
    status is not 0, the file system is untouched and no file was
    handled. *)
Lemma invalid_root_is_fatal (w : World) (folder_path : Path) (dry : bool) :
  Os.is_dir (fs w) folder_path = false →
  ∃ code self' w',
    main w folder_path dry = (SysExit code, self', w') ∧ code ≠ 0%nat ∧
    fs w' = fs w ∧ derived w' = derived w ∧
    processed_count self' = 0%nat ∧ error_count self' = 0%nat.
Proof.
  intros Hdir. unfold main, process_folder. rewrite Hdir.
  destruct (Os.path_exists (fs w) folder_path); simpl;
    eexists _, _, _; (split; [done|]); done.
Qed.

(** With a valid root the run returns (status 0) unless the loop is left
    by an exception. *)
Lemma valid_root_exit_status (w : World) (folder_path : Path) (dry : bool) :
  Os.is_dir (fs w) folder_path = true →
  let '(ending, _, _) := main w folder_path dry in
  ending = Finished ∨
  ∃ e self' w' p, ending = Traceback e ∧
    process_images (init dry)
      (let w0 := echo w [(Stdout, Found (length (find_image_files (fs w) folder_path)))] in
       if dry then echo w0 [(Stdout, DryRunMode)] else w0)
      (find_image_files (fs w) folder_path) = (Uncaught e, self', w') ∧
    p ∈ find_image_files (fs w) folder_path ∧
    Os.mkdir_exist_ok (fs w') (PathOps.parent p // "no-exif") = inl e.
Proof.
  intros Hdir. unfold main, process_folder.
  assert (Os.path_exists (fs w) folder_path = true) as ->.
  { unfold Os.is_dir, Os.path_exists in *. by destruct (fs w !! folder_path). }
  rewrite Hdir. simpl.
  destruct (find_image_files (fs w) folder_path) as [|p rest] eqn:Hfiles;
    [by left|].
  match goal with |- context [process_images ?s ?w0 ?l] =>
    pose proof (process_images_no_fuel s w0 l) as Hfuel;
    destruct (process_images s w0 l) as [[[|e|] self1] w1] eqn:Hloop end;
    [by left| |done].
  right. destruct (loop_left_only_by_mkdir _ _ _ _ _ _ Hloop) as (q & dt & Hq & _ & Hm).
  exists e, self1, w1, q. done.
Qed.

End failures.

(** ** Second runs *)

Section second_runs.
Context `{Platform}.

(** A file with an EXIF timestamp that already carries the name the
    deriver gives it is left where it is: nothing is renamed and nothing
    is printed. *)
Lemma named_file_left_alone (self : PicSorter) (w : World) (p : Path)
    (dt : datetime) (k : nat) :
  extract_date_taken (fs w) p = (Some dt, false, []) →
  let d := PathOps.parent p in
  let ds := strftime dt in
  let ext := Str.lower (PathOps.suffix p) in
  p = candidate d ds ext k →
  (∀ m, (m < k)%nat → is_Some (fs w !! candidate d ds ext m)) →
  process_image self w p =
    (Next, count_processed self,
     mk_World (fs w) (output w) (derived w ++ [(p, p, true)])).
Proof.
  intros He d ds ext Hp Hbelow.
  destruct (process_image self w p) as [[sig self'] w'] eqn:Hstep.
  apply process_image_step in Hstep.
  inversion Hstep as [e He'| dt' e He' |dt' fb f' fs1 k' ok fs2 said Hf He' Htarget Hf1 d' Hfree' Hbefore' Hren];
    [congruence|congruence|].
  rewrite He in He'. injection He' as <- <-. injection Htarget as <-.
  subst d'. unfold target_dir_of in *.
  fold d ds ext in Hfree', Hbefore', Hren |- *.
  assert (k' = k) as ->.
  { eapply candidate_first_free; [exact Hfree'|exact Hbefore'| |].
    - apply taken_false_iff. by right.
    - intros m Hm. apply taken_true_iff. split; [by apply Hbelow|].
      intros E.
      assert (candidate d ds ext m = candidate d ds ext k) as E' by congruence.
      apply candidate_inj in E'. lia. }
  unfold rename_file in Hren. rewrite bool_decide_eq_true_2 in Hren by done.
  injection Hren as <- <- <-. simpl. rewrite app_nil_r, <- Hp. done.
Qed.

(** A file on the fallback timestamp never has the name the deriver gives
    it: the destination is one directory further down, whatever the
    directory the file is in. *)
Lemma fallback_file_always_moves (fs fs' : FS) (original_path new_path : Path)
    (dt : datetime) :
  generate_new_filename fs original_path dt true = Return (fs', new_path) →
  PathOps.parent new_path = PathOps.parent original_path // "no-exif" ∧
  new_path ≠ original_path.
Proof.
  intros Hg.
  destruct (generate_new_filename_cases fs original_path dt true)
    as [(e & _ & _ & Hr)|(fs1 & k & _ & Hr & _)]; [congruence|].
  rewrite Hr in Hg. injection Hg as <- <-.
  rewrite candidate_parent. split; [done|].
  intros E. apply (f_equal PathOps.parent) in E.
  rewrite candidate_parent in E. unfold target_dir_of in E.
  by apply join_ne_self in E.
Qed.

End second_runs.

(** * Further properties of the program *)

(** ** The directory walker *)

Section walker.

Lemma walk_reaches_spec (fs : FS) (folder_path p : Path) :
  walk_reaches fs folder_path p = true ↔
  folder_path `prefix_of` p ∧
  ∀ q, folder_path `prefix_of` q → q `prefix_of` p → q ≠ p →
       Os.is_dir fs q = true.
Proof.
  unfold walk_reaches.
  rewrite !andb_true_iff, bool_decide_eq_true, forallb_forall.
  split.
  - intros [Hpre Hall]. split; [done|].
    intros q Hq1 Hq2 Hne.
    assert (take (length q) p = q) as Htake.
    { destruct Hq2 as [r ->]. by rewrite take_app_length. }
    rewrite <- Htake. apply Hall, in_seq.
    apply prefix_length in Hq1 as Hl1. apply prefix_length in Hq2 as Hl2.
    assert (length q ≠ length p).
    { intros E. apply Hne. rewrite <- Htake, E. apply firstn_all. }
    lia.
  - intros (Hpre & Hall). split; [done|].
    intros k [Hk1 Hk2]%in_seq. apply Hall.
    + destruct Hpre as [r ->]. rewrite take_app_ge by done.
      by apply prefix_app_r.
    + apply prefix_take.
    + intros E. apply (f_equal length) in E. rewrite length_take in E.
      apply prefix_length in Hpre. lia.
Qed.


End walker.

(** ** The metadata extractor *)

Section more_on_extraction.
Context `{Platform}.



End more_on_extraction.

(** ** What a run does to the file system *)

Section effects_of_a_run.
Context `{Platform}.

(** The file system after one step: the target directory may have been
    created, and then the file may have moved to a free name. *)
Lemma step_file_system (self self' : PicSorter) (w w' : World) (p : Path)
    (sig : signal) :
  step_kind self w p sig self' w' →
  ∃ fs1,
    (fs1 = fs w ∨
     fs w !! (PathOps.parent p // "no-exif") = None ∧
     fs1 = <[PathOps.parent p // "no-exif" := Dir true]> (fs w)) ∧
    (fs w' = fs1 ∨
     ∃ d f, fs1 !! p = Some (File f) ∧ fs1 !! d = None ∧
            fs w' = <[d := File f]> (delete p fs1)).
Proof.
  intros Hstep.
  inversion Hstep as [e He| |dt fb f fs1 k ok fs2 said Hf He Htarget Hf1 d Hfree Hbefore Hren];
    subst; [exists (fs w); by split; left|exists (fs w'); by split; left|].
  exists fs1. simpl. split.
  - destruct fb; [|injection Htarget as <-; by left].
    destruct (mkdir_exist_ok_inr _ _ _ Htarget) as (_ & _ & Hsame & Hnew).
    destruct (fs w !! (PathOps.parent p // "no-exif")) as [n|] eqn:Hn.
    + left. apply Hsame. eauto.
    + right. split; [done|]. by apply Hnew.
  - unfold rename_file in Hren. case_bool_decide as Hin_place.
    { injection Hren as <- <- <-. by left. }
    destruct (dry_run self); [injection Hren as <- <- <-; by left|].
    destruct (Os.rename fs1 p d) as [e|fs3] eqn:Hos;
      injection Hren as <- <- <-; [by left|].
    apply taken_false_iff in Hfree as [Hfree|Hown]; [|congruence].
    right. exists d, f. split; [done|]. split; [done|].
    by apply (rename_file_to_free _ _ _ _ f) in Hos.
Qed.

Lemma files_of_mkdir (fs : FS) (d : Path) :
  fs !! d = None → files_of (<[d := Dir true]> fs) ≡ₚ files_of fs.
Proof.
  intros Hd. unfold files_of. by rewrite map_to_list_insert by done.
Qed.

Lemma files_of_move (fs : FS) (p d : Path) (f : file) :
  fs !! p = Some (File f) → fs !! d = None →
  files_of (<[d := File f]> (delete p fs)) ≡ₚ files_of fs.
Proof.
  intros Hp Hd. unfold files_of.
  assert (p ≠ d) as Hne by congruence.
  rewrite map_to_list_insert by (by rewrite lookup_delete_ne).
  rewrite <- (map_to_list_delete fs p (File f)) by done. done.
Qed.

Lemma step_keeps_files (self self' : PicSorter) (w w' : World) (p : Path)
    (sig : signal) :
  step_kind self w p sig self' w' → files_of (fs w') ≡ₚ files_of (fs w).
Proof.
  intros (fs1 & Hmk & Hmv)%step_file_system.
  assert (files_of fs1 ≡ₚ files_of (fs w)) as H1.
  { destruct Hmk as [->|[Hnone ->]]; [done|by apply files_of_mkdir]. }
  rewrite <- H1. destruct Hmv as [->|(d & f & Hp & Hd & ->)]; [done|].
  by apply files_of_move.
Qed.

Lemma step_leaves_others (self self' : PicSorter) (w w' : World) (p q : Path)
    (sig : signal) :
  step_kind self w p sig self' w' →
  is_Some (fs w !! q) → q ≠ p → fs w' !! q = fs w !! q.
Proof.
  intros (fs1 & Hmk & Hmv)%step_file_system Hq Hqp.
  assert (fs1 !! q = fs w !! q) as H1.
  { destruct Hmk as [->|[Hnone ->]]; [done|].
    rewrite lookup_insert_ne; [done|]. intros <-.
    rewrite Hnone in Hq. by apply is_Some_None in Hq. }
  rewrite <- H1. destruct Hmv as [->|(d & f & Hp & Hd & ->)]; [done|].
  rewrite lookup_insert_ne, lookup_delete_ne; [done|done|].
  intros <-. rewrite <- H1, Hd in Hq. by apply is_Some_None in Hq.
Qed.

Lemma process_images_keeps_files (self self' : PicSorter) (w w' : World)
    (image_files : list Path) (sig : signal) :
  process_images self w image_files = (sig, self', w') →
  files_of (fs w') ≡ₚ files_of (fs w).
Proof.
  revert self w. induction image_files as [|p rest IH]; intros self w.
  - by intros [= <- <- <-].
  - rewrite process_images_cons.
    destruct (process_image self w p) as [[sig1 self1] w1] eqn:Hstep.
    apply process_image_step, step_keeps_files in Hstep.
    destruct sig1; [intros Hrest%IH; by rewrite Hrest|by intros [= <- <- <-]..].
Qed.

Lemma process_images_leaves_others (self self' : PicSorter) (w w' : World)
    (image_files : list Path) (sig : signal) (q : Path) :
  process_images self w image_files = (sig, self', w') →
  is_Some (fs w !! q) → q ∉ image_files → fs w' !! q = fs w !! q.
Proof.
  revert self w. induction image_files as [|p rest IH]; intros self w.
  - by intros [= <- <- <-].
  - rewrite process_images_cons.
    destruct (process_image self w p) as [[sig1 self1] w1] eqn:Hstep.
    apply process_image_step in Hstep. intros Hrun Hq Hnot.
    assert (fs w1 !! q = fs w !! q) as H1
      by (apply (step_leaves_others _ _ _ _ _ _ _ Hstep); [done|set_solver]).
    destruct sig1; [|by injection Hrun as <- <- <-..].
    rewrite <- H1. apply (IH _ _ Hrun); [by rewrite H1|set_solver].
Qed.

(** [processed_count] moves with the number of accepted destinations. *)
Lemma process_images_counts_claims (self self' : PicSorter) (w w' : World)
    (image_files : list Path) (sig : signal) :
  process_images self w image_files = (sig, self', w') →
  (processed_count self' + length (claimed (derived w)))%nat =
  (processed_count self + length (claimed (derived w')))%nat.
Proof.
  revert self w. induction image_files as [|p rest IH]; intros self w.
  - by intros [= <- <- <-].
  - rewrite process_images_cons.
    destruct (process_image self w p) as [[sig1 self1] w1] eqn:Hstep.
    apply process_image_step in Hstep.
    assert (processed_count self1 + length (claimed (derived w)) =
            processed_count self + length (claimed (derived w1)))%nat as H1.
    { inversion Hstep as [e He| |dt fb f fs1 k ok fs2 said]; subst; simpl;
        [lia|lia|].
      rewrite claimed_snoc, length_app. destruct ok; simpl; lia. }
    destruct sig1; [intros Hrest%IH; lia|by intros [= <- <- <-]..].
Qed.

(** What [main] does, reduced to the loop it runs: either nothing is
    looked at, or the loop runs over the candidates, from a world that
    differs from the initial one by what has been printed. *)
Lemma main_runs_loop (w : World) (folder_path : Path) (dry : bool) :
  let r := main w folder_path dry in
  (fs r.2 = fs w ∧ derived r.2 = derived w ∧ processed_count r.1.2 = 0%nat) ∨
  ∃ w0 sig self1 w1,
    fs w0 = fs w ∧ derived w0 = derived w ∧
    process_images (init dry) w0 (find_image_files (fs w) folder_path)
      = (sig, self1, w1) ∧
    fs r.2 = fs w1 ∧ derived r.2 = derived w1 ∧ r.1.2 = self1.
Proof.
  unfold main, process_folder.
  destruct (negb (Os.path_exists (fs w) folder_path)); [by left|].
  destruct (negb (Os.is_dir (fs w) folder_path)); [by left|].
  destruct (find_image_files (fs w) folder_path) as [|p rest]; [by left|].
  right.
  match goal with |- context [process_images ?s ?w0 ?l] =>
    exists w0; destruct (process_images s w0 l) as [[sig self1] w1] eqn:Hloop end.
  exists sig, self1, w1. split; [by destruct dry|]. split; [by destruct dry|].
  split; [done|].
  destruct sig; simpl; [|done..]. by destruct (0 <? error_count self1)%nat.
Qed.






Lemma step_claimed_files (self self' : PicSorter) (w w' : World) (p : Path)
    (rest : list Path) (sig : signal) :
  dry_run self = false →
  claims_on_disk w (p :: rest) →
  step_kind self w p sig self' w' →
  Forall (λ d, Os.is_file (fs w) d = true) (claimed (derived w)) →
  Forall (λ d, Os.is_file (fs w') d = true) (claimed (derived w')).
Proof.
  intros Hreal (_ & Hclaimed & _) Hstep Hfiles.
  assert (Forall (λ d, Os.is_file (fs w') d = true) (claimed (derived w)))
    as Hold.
  { apply Forall_forall. intros d0 Hd0.
    rewrite Forall_forall in Hfiles. specialize (Hfiles d0 Hd0).
    destruct (Hclaimed d0 Hd0) as [Hsome Hnot].
    unfold Os.is_file in *.
    rewrite (step_leaves_others _ _ _ _ p d0 _ Hstep); [done|done|set_solver]. }
  inversion Hstep as [e He| |dt fb f fs1 k ok fs2 said Hf He Htarget Hf1 d Hfree Hbefore Hren];
    subst; [done|done|].
  simpl in *. rewrite claimed_snoc. apply Forall_app. split; [done|].
  destruct ok; [|done]. apply Forall_singleton.
  unfold rename_file in Hren. rewrite Hreal in Hren. unfold Os.is_file.
  case_bool_decide as Hin_place.
  - injection Hren as <- <-. by rewrite <- Hin_place, Hf1.
  - destruct (Os.rename fs1 p d) as [e|fs3] eqn:Hos; [done|].
    injection Hren as <- <-.
    apply taken_false_iff in Hfree as [Hfree|Hown]; [|congruence].
    apply (rename_file_to_free _ _ _ _ f) in Hos; [|done..].
    by rewrite Hos, lookup_insert_eq.
Qed.

Lemma process_images_claimed_files (self self' : PicSorter) (w w' : World)
    (image_files : list Path) (sig : signal) :
  dry_run self = false →
  NoDup image_files →
  claims_on_disk w image_files →
  Forall (λ d, Os.is_file (fs w) d = true) (claimed (derived w)) →
  process_images self w image_files = (sig, self', w') →
  Forall (λ d, Os.is_file (fs w') d = true) (claimed (derived w')).
Proof.
  revert self w.
  induction image_files as [|p rest IH]; intros self w Hreal Hnd Hinv Hfiles.
  - by intros [= <- <- <-].
  - rewrite process_images_cons.
    destruct (process_image self w p) as [[sig1 self1] w1] eqn:Hstep.
    apply process_image_step in Hstep.
    pose proof (step_claimed_files _ _ _ _ _ _ _ Hreal Hinv Hstep Hfiles) as H1.
    pose proof (step_keeps_claims_on_disk _ _ _ _ _ _ _ Hreal Hnd Hinv Hstep)
      as Hinv1.
    pose proof (step_kind_dry_run _ _ _ _ _ _ Hstep) as Hreal1.
    rewrite Hreal in Hreal1. apply NoDup_cons in Hnd as [_ Hnd].
    destruct sig1; [by apply IH|by intros [= <- <- <-]..].
Qed.


End effects_of_a_run.

(** ** Suffixes and derived names *)

Section suffixes.
Context `{Platform}.

Lemma rfind_dot_app (a b : string) :
  Str.rfind_dot (a +:+ b) =
  match Str.rfind_dot b with
  | Some i => Some (String.length a + i)%nat
  | None => Str.rfind_dot a
  end.
Proof.
  induction a as [|c a IH].
  - rewrite StrFacts.append_nil. by destruct (Str.rfind_dot b).
  - rewrite StrFacts.append_cons. simpl. rewrite IH.
    by destruct (Str.rfind_dot b).
Qed.

Lemma rfind_dot_Some (nm : string) (i : nat) :
  Str.rfind_dot nm = Some i →
  ∃ a r, nm = a +:+ String "."%char r ∧ String.length a = i ∧
         Str.rfind_dot r = None.
Proof.
  revert i. induction nm as [|c nm IH]; intros i; [done|]. simpl.
  destruct (Str.rfind_dot nm) as [j|] eqn:Hnm.
  - intros [= <-]. destruct (IH j eq_refl) as (a & r & -> & <- & Hr).
    exists (String c a), r. by rewrite StrFacts.append_cons.
  - destruct (Ascii.eqb c ".") eqn:Hc; [|done]. intros [= <-].
    apply Ascii.eqb_eq in Hc as ->. exists "", nm. by rewrite StrFacts.append_nil.
Qed.

Lemma substring_tail (a b : string) :
  String.substring (String.length a) (String.length b) (a +:+ b) = b.
Proof.
  induction a as [|c a IH].
  - rewrite StrFacts.append_nil. simpl.
    induction b as [|c b IHb]; [done|]. simpl. by rewrite IHb.
  - rewrite StrFacts.append_cons. simpl. exact IH.
Qed.

(** A suffix is empty, or a dot followed by at least one character and no
    further dot. *)
Lemma suffix_shape (p : Path) :
  PathOps.suffix p = "" ∨
  ∃ r, PathOps.suffix p = String "."%char r ∧ r ≠ "" ∧ Str.rfind_dot r = None.
Proof.
  unfold PathOps.suffix.
  destruct (Str.rfind_dot (PathOps.name p)) as [i|] eqn:Hdot; [|by left].
  destruct (rfind_dot_Some _ _ Hdot) as (a & r & -> & <- & Hr).
  destruct ((0 <? String.length a)%nat &&
            (String.length a <? String.length (a +:+ String "." r) - 1)%nat)
    eqn:Hin; [|by left].
  right. exists r. apply andb_prop in Hin as [_ Hlt%Nat.ltb_lt].
  rewrite StrFacts.append_length in Hlt |- *. simpl in Hlt |- *.
  replace (String.length a + S (String.length r) - String.length a)%nat
    with (String.length (String "." r)) by (simpl; lia).
  rewrite substring_tail. split; [done|]. split; [|done].
  intros ->. simpl in Hlt. lia.
Qed.

Lemma lower_ascii_dot (c : ascii) :
  Ascii.eqb (Str.lower_ascii c) "." = Ascii.eqb c ".".
Proof. by destruct c as [[] [] [] [] [] [] [] []]. Qed.

Lemma lower_ascii_idem (c : ascii) :
  Str.lower_ascii (Str.lower_ascii c) = Str.lower_ascii c.
Proof. by destruct c as [[] [] [] [] [] [] [] []]. Qed.

Lemma lower_idem (s : string) : Str.lower (Str.lower s) = Str.lower s.
Proof.
  induction s as [|c s IH]; [done|]. simpl. by rewrite lower_ascii_idem, IH.
Qed.

Lemma lower_no_dot (r : string) :
  Str.rfind_dot r = None → Str.rfind_dot (Str.lower r) = None.
Proof.
  induction r as [|c r IH]; [done|]. simpl.
  destruct (Str.rfind_dot r); [done|]. rewrite IH by done.
  by rewrite lower_ascii_dot.
Qed.

Lemma lower_suffix_shape (p : Path) :
  Str.lower (PathOps.suffix p) = "" ∨
  ∃ r, Str.lower (PathOps.suffix p) = String "."%char r ∧ r ≠ "" ∧
       Str.rfind_dot r = None.
Proof.
  destruct (suffix_shape p) as [->|(r & -> & Hne & Hr)]; [by left|].
  right. exists (Str.lower r). split; [done|]. split; [|by apply lower_no_dot].
  by destruct r.
Qed.

Lemma digit_no_dot (c : ascii) : Str.is_digit c = true → Ascii.eqb c "." = false.
Proof. by destruct c as [[] [] [] [] [] [] [] []]. Qed.

Lemma all_digits_no_dot (s : string) :
  Str.all_digits s = true → Str.rfind_dot s = None.
Proof.
  induction s as [|c s IH]; [done|]. simpl.
  intros [Hc Hs]%andb_prop. by rewrite IH, digit_no_dot.
Qed.

Lemma strftime_all_digits (dt : datetime) : Str.all_digits (strftime dt) = true.
Proof.
  unfold strftime.
  rewrite !StrFacts.all_digits_append, StrFacts.all_digits_of_nat,
    !StrFacts.all_digits_fmt_02d. done.
Qed.

Lemma strftime_not_empty (dt : datetime) : strftime dt ≠ "".
Proof.
  unfold strftime. intros E. apply (f_equal String.length) in E.
  rewrite !StrFacts.append_length in E. simpl in E.
  assert (Str.of_nat (year dt) ≠ "") as Hy; [|destruct (Str.of_nat (year dt)); [done|simpl in E; lia]].
  unfold Str.of_nat. pose proof (StrFacts.to_uint_not_nil (year dt)).
  by destruct (Nat.to_uint (year dt)).
Qed.

Lemma counter_suffix_no_dot (k : nat) : Str.rfind_dot (counter_suffix k) = None.
Proof.
  destruct k as [|k]; [done|]. unfold counter_suffix.
  change ("_" +:+ Str.fmt_02d (S k)) with (String "_" (Str.fmt_02d (S k))).
  simpl Str.rfind_dot.
  by rewrite (all_digits_no_dot _ (StrFacts.all_digits_fmt_02d (S k))).
Qed.

(** The suffix of a derived name is the extension it was built with. *)
Lemma suffix_candidate (d : Path) (ds ext : string) (k : nat) :
  Str.all_digits ds = true → ds ≠ "" →
  (ext = "" ∨ ∃ r, ext = String "."%char r ∧ r ≠ "" ∧ Str.rfind_dot r = None) →
  PathOps.suffix (candidate d ds ext k) = ext.
Proof.
  intros Hds Hne Hext. rewrite candidate_counter_suffix.
  unfold PathOps.suffix. rewrite name_join.
  assert (Str.rfind_dot (ds +:+ counter_suffix k) = None) as Hbody.
  { by rewrite rfind_dot_app, counter_suffix_no_dot, all_digits_no_dot. }
  rewrite <- StrFacts.append_assoc.
  destruct Hext as [->|(r & -> & Hr & Hdot)].
  - rewrite rfind_dot_app. simpl. by rewrite Hbody.
  - rewrite rfind_dot_app. simpl Str.rfind_dot at 1. rewrite Hdot. simpl.
    rewrite Nat.add_0_r, !StrFacts.append_length. simpl.
    assert (0 < String.length ds)%nat as Hlen by (destruct ds; [done|simpl; lia]).
    assert (0 < String.length r)%nat as Hlr by (destruct r; [done|simpl; lia]).
    replace (0 <? String.length ds + String.length (counter_suffix k))%nat
      with true by (symmetry; apply Nat.ltb_lt; lia).
    replace (String.length ds + String.length (counter_suffix k) <?
             String.length ds + String.length (counter_suffix k) +
             S (String.length r) - 1)%nat
      with true by (symmetry; apply Nat.ltb_lt; lia).
    simpl.
    replace (String.length ds + String.length (counter_suffix k) +
             S (String.length r) -
             (String.length ds + String.length (counter_suffix k)))%nat
      with (String.length (String "." r)) by (simpl; lia).
    rewrite <- StrFacts.append_length. apply substring_tail.
Qed.



End suffixes.

(** * Runs on concrete folders

    From here on the program runs on the reference platform. *)

Import Reference.

(** The two examples of the specification, in one real run:
    [photo.jpg] with a capture time becomes [20230517143000.jpg] in
    place, [scan.PNG] without EXIF goes to [no-exif] under the name of its
    modification time; the unreadable [bad.gif] is an error and
    [notes.txt] is no candidate. *)
Example real_run_on_holiday :
  let '(ending, self, w) := main (start holiday) ["pics"] false in
  ending = Finished ∧
  processed_count self = 2%nat ∧ error_count self = 1%nat ∧
  fs w !! ["pics"; "20230517143000.jpg"] = Some (File shot) ∧
  fs w !! ["pics"; "photo.jpg"] = None ∧
  fs w !! ["pics"; "no-exif"; "20220101000000.png"]
    = Some (File (without_exif 1640995200)) ∧
  fs w !! ["pics"; "bad.gif"] = Some (File not_an_image) ∧
  fs w !! ["pics"; "notes.txt"] = Some (File not_an_image).
Proof. vm_compute. repeat split; reflexivity. Qed.

(** ** C3 *)

(** A file whose EXIF mapping yields [DateTime] before [DateTimeOriginal],
    both well formed. *)
Example first_parsing_date_tag_wins_witness :
  extract_date_taken
    (folder
       [("photo.jpg",
         mk_file (Decoded [(271%Z, ExifText "ACME");
                           (306%Z, ExifText "2020:01:01 10:00:00");
                           (36867%Z, ExifText "2019:06:15 08:30:00")]) 0)])
    ["pics"; "photo.jpg"]
  = (Some (mk_datetime 2020 1 1 10 0 0), false, []).
Proof.
  apply (first_parsing_date_tag_wins _ _
           (mk_file (Decoded [(271%Z, ExifText "ACME");
                              (306%Z, ExifText "2020:01:01 10:00:00");
                              (36867%Z, ExifText "2019:06:15 08:30:00")]) 0)
           [(271%Z, ExifText "ACME")]
           [(36867%Z, ExifText "2019:06:15 08:30:00")]
           306%Z "2020:01:01 10:00:00").
  - vm_compute; reflexivity.
  - reflexivity.
  - vm_compute; reflexivity.
  - vm_compute; reflexivity.
  - repeat constructor. simpl. intros Hd. vm_compute in Hd. discriminate Hd.
Defined.

(** C3, as stated, fails: with [DateTime] stored before
    [DateTimeOriginal], the extractor returns the value of [DateTime],
    while the priority order of the claim selects [DateTimeOriginal]. *)
Example priority_order_not_followed :
  let exif := [(306%Z, ExifText "2020:01:01 10:00:00");
               (36867%Z, ExifText "2019:06:15 08:30:00")] in
  extract_date_taken (folder [("photo.jpg", mk_file (Decoded exif) 0)])
                     ["pics"; "photo.jpg"]
    = (Some (mk_datetime 2020 1 1 10 0 0), false, []) ∧
  by_priority exif = Some (mk_datetime 2019 6 15 8 30 0) ∧
  mk_datetime 2020 1 1 10 0 0 ≠ mk_datetime 2019 6 15 8 30 0.
Proof. split; [|split]; [vm_compute; reflexivity..|discriminate]. Qed.

(** ** C4 *)

(** Three shots of one second, processed in the order a, b, c, and three
    scans of one second, processed in the order x, y, z, each in a real
    run. *)
Example collision_counter_witness :
  derived (process_images (init false) (start burst)
             [["pics"; "a.jpg"]; ["pics"; "b.jpg"]; ["pics"; "c.jpg"]]).2
  = [(["pics"; "a.jpg"], ["pics"; "20230517143000.jpg"], true);
     (["pics"; "b.jpg"], ["pics"; "20230517143000_01.jpg"], true);
     (["pics"; "c.jpg"], ["pics"; "20230517143000_02.jpg"], true)] ∧
  derived (process_images (init false) (start scan_burst)
             [["pics"; "x.png"]; ["pics"; "y.png"]; ["pics"; "z.png"]]).2
  = [(["pics"; "x.png"], ["pics"; "no-exif"; "20220101000000.png"], true);
     (["pics"; "y.png"], ["pics"; "no-exif"; "20220101000000_01.png"], true);
     (["pics"; "z.png"], ["pics"; "no-exif"; "20220101000000_02.png"], true)].
Proof.
  split.
  - set (r := process_images (init false) (start burst)
                [["pics"; "a.jpg"]; ["pics"; "b.jpg"]; ["pics"; "c.jpg"]]).
    destruct (proj2 collision_counter (init false) r.1.2 (start burst) r.2
                ["pics"; "a.jpg"] ["pics"; "b.jpg"] ["pics"; "c.jpg"] ["pics"]
                "20230517143000" ".jpg" r.1.1) as (_ & Hderived & _).
    + reflexivity.
    + repeat constructor; set_solver.
    + repeat constructor;
        exists (mk_datetime 2023 5 17 14 30 0), false; vm_compute;
        repeat split; reflexivity.
    + vm_compute; reflexivity.
    + vm_compute; reflexivity.
    + vm_compute; reflexivity.
    + vm_compute; reflexivity.
    + vm_compute; reflexivity.
    + exact Hderived.
  - set (r := process_images (init false) (start scan_burst)
                [["pics"; "x.png"]; ["pics"; "y.png"]; ["pics"; "z.png"]]).
    destruct (proj2 collision_counter (init false) r.1.2 (start scan_burst) r.2
                ["pics"; "x.png"] ["pics"; "y.png"] ["pics"; "z.png"]
                ["pics"; "no-exif"] "20220101000000" ".png" r.1.1)
      as (_ & Hderived & _).
    + reflexivity.
    + repeat constructor; set_solver.
    + repeat constructor;
        exists (mk_datetime 2022 1 1 0 0 0), true; vm_compute;
        repeat split; reflexivity.
    + vm_compute; reflexivity.
    + vm_compute; reflexivity.
    + vm_compute; reflexivity.
    + vm_compute; reflexivity.
    + vm_compute; reflexivity.
    + exact Hderived.
Defined.

(** C4, as stated, fails in dry-run mode: of three shots of one second
    the second is not given [_01] and the third is not given [_02]; all
    three are given the plain name, since the shots before them have not
    been renamed. *)
Example dry_run_gives_every_file_the_plain_name :
  derived (process_images (init true) (start burst)
             [["pics"; "a.jpg"]; ["pics"; "b.jpg"]; ["pics"; "c.jpg"]]).2
  = [(["pics"; "a.jpg"], ["pics"; "20230517143000.jpg"], true);
     (["pics"; "b.jpg"], ["pics"; "20230517143000.jpg"], true);
     (["pics"; "c.jpg"], ["pics"; "20230517143000.jpg"], true)].
Proof. vm_compute; reflexivity. Qed.

(** Nor does the second file receive [_01] when the rename of the first
    fails, as in a read-only folder. *)
Example failed_rename_frees_no_counter :
  derived (process_images (init false) (start locked)
             [["pics"; "a.jpg"]; ["pics"; "b.jpg"]]).2
  = [(["pics"; "a.jpg"], ["pics"; "20230517143000.jpg"], false);
     (["pics"; "b.jpg"], ["pics"; "20230517143000.jpg"], false)].
Proof. vm_compute; reflexivity. Qed.

(** The counter has three digits from 100 on. *)
Example counter_100_has_three_digits :
  Str.fmt_02d 7 = "07" ∧ Str.fmt_02d 99 = "99" ∧ Str.fmt_02d 100 = "100".
Proof. repeat split; reflexivity. Qed.

(** ** C5 *)

(** C5 fails on a photo whose EXIF date lies before the year 1000:
    [strptime] reads the year 999 from [0999], [strftime] prints it as
    [999], and the derived name has thirteen digits instead of the
    fourteen of the pattern [yyyyMMddHHmmSS]. *)
Theorem year_below_1000_is_not_padded :
  let '(ending, _, w) := main (start (folder [("old.jpg", ancient)])) ["pics"] false in
  strptime "0999:01:01 00:00:00" = Some (mk_datetime 999 1 1 0 0 0) ∧
  strftime (mk_datetime 999 1 1 0 0 0) = "9990101000000" ∧
  String.length (strftime (mk_datetime 999 1 1 0 0 0)) = 13%nat ∧
  ending = Finished ∧
  fs w !! ["pics"; "9990101000000.jpg"] = Some (File ancient) ∧
  fs w !! ["pics"; "09990101000000.jpg"] = None ∧
  fs w !! ["pics"; "old.jpg"] = None.
Proof. vm_compute. repeat split; reflexivity. Qed.

(** The scan of the specification: modification time 2022-01-01
    00:00:00, no [no-exif] directory yet. *)
Example derived_name_and_directory_witness :
  valid_datetime (mk_datetime 2022 1 1 0 0 0) ∧
  generate_new_filename holiday ["pics"; "scan.PNG"]
                        (mk_datetime 2022 1 1 0 0 0) true
  = Return (<[["pics"; "no-exif"] := Dir true]> holiday,
            ["pics"; "no-exif"; "20220101000000.png"]).
Proof.
  assert (valid_datetime (mk_datetime 2022 1 1 0 0 0)) as Hvalid
    by (unfold valid_datetime; simpl; lia).
  split; [exact Hvalid|].
  destruct (derived_name_and_directory holiday ["pics"; "scan.PNG"] _ Hvalid)
    as (_ & _ & _ & Hcreated & Hfallback); [simpl; lia|].
  destruct (Hfallback (<[["pics"; "no-exif"] := Dir true]> holiday))
    as (_ & k & -> & Hplain).
  - apply Hcreated; vm_compute; reflexivity.
  - rewrite Hplain; [reflexivity|]. vm_compute; reflexivity.
Defined.

(** ** C6 *)

(** C6, as stated, fails in dry-run mode: nothing is renamed, so the
    second of two shots of one second is given the destination that the
    first has been given. *)
Example dry_run_claims_one_destination_twice :
  derived (process_folder (init true) (start pair) ["pics"]).2
  = [(["pics"; "b.jpg"], ["pics"; "20230517143000.jpg"], true);
     (["pics"; "a.jpg"], ["pics"; "20230517143000.jpg"], true)] ∧
  claimed (derived (process_folder (init true) (start pair) ["pics"]).2)
  = [["pics"; "20230517143000.jpg"]; ["pics"; "20230517143000.jpg"]].
Proof. split; vm_compute; reflexivity. Qed.

(** A destination that [rename_file] could not take is not claimed, and
    can be returned again: in a read-only folder both shots are given the
    plain name, and both renames fail. *)
Example failed_renames_share_a_destination :
  derived (process_folder (init false) (start locked) ["pics"]).2
  = [(["pics"; "b.jpg"], ["pics"; "20230517143000.jpg"], false);
     (["pics"; "a.jpg"], ["pics"; "20230517143000.jpg"], false)].
Proof. vm_compute; reflexivity. Qed.

(** ** C10 *)

Example counters_add_up_witness :
  let r := process_folder (init false) (start holiday) ["pics"] in
  r.1.1 = Finished ∧
  ∃ oks : list bool,
    length oks = length (find_image_files holiday ["pics"]) ∧
    processed_count r.1.2 = length (List.filter id oks) ∧
    error_count r.1.2 = length (List.filter negb oks) ∧
    (processed_count r.1.2 + error_count r.1.2)%nat =
      length (find_image_files holiday ["pics"]).
Proof.
  split; [vm_compute; reflexivity|].
  apply (counters_add_up false (start holiday)
           (process_folder (init false) (start holiday) ["pics"]).2).
  vm_compute; reflexivity.
Defined.

(** ** C1 *)

(** C1 fails on a folder with an image without EXIF date: the dry run
    ends normally and has created the directory [no-exif], which was not
    there before.  (The scan itself is where it was.) *)
Theorem dry_run_creates_no_exif :
  let '(ending, _, w) := main (start scans) ["pics"] true in
  ending = Finished ∧
  scans !! ["pics"; "no-exif"] = None ∧
  fs w !! ["pics"; "no-exif"] = Some (Dir true) ∧
  fs w !! ["pics"; "scan.png"] = scans !! ["pics"; "scan.png"].
Proof. vm_compute. repeat split; reflexivity. Qed.

(** On a collision the report of a dry run is not that of the real run
    either: the real run gives the second shot the counter 01, the dry
    run announces the plain name twice. *)
Example dry_report_differs_on_collision :
  output (main (start pair) ["pics"] false).2
  = [(Stdout, Found 2);
     (Stdout, Renamed "b.jpg" "20230517143000.jpg");
     (Stdout, Renamed "a.jpg" "20230517143000_01.jpg");
     (Stdout, ProcessingComplete); (Stdout, SuccessfullyProcessed 2)] ∧
  output (main (start pair) ["pics"] true).2
  = [(Stdout, Found 2); (Stdout, DryRunMode);
     (Stdout, WouldRename "b.jpg" "20230517143000.jpg");
     (Stdout, WouldRename "a.jpg" "20230517143000.jpg");
     (Stdout, ProcessingComplete); (Stdout, SuccessfullyProcessed 2)].
Proof. split; vm_compute; reflexivity. Qed.

(** ** C2 *)

(** C2 fails on a folder with an image without EXIF date: the first run
    moves the scan to [no-exif]; the second run finds it there, derives
    a destination one [no-exif] further down, and renames again. *)
Theorem second_run_moves_fallback_file :
  let first := main (start scans) ["pics"] false in
  let second := main (start (fs first.2)) ["pics"] false in
  first.1.1 = Finished ∧ second.1.1 = Finished ∧
  fs first.2 !! ["pics"; "no-exif"; "20220101000000.png"]
    = Some (File (without_exif 1640995200)) ∧
  fs second.2 !! ["pics"; "no-exif"; "20220101000000.png"] = None ∧
  fs second.2 !! ["pics"; "no-exif"; "no-exif"; "20220101000000.png"]
    = Some (File (without_exif 1640995200)) ∧
  output second.2
  = [(Stdout, Found 1);
     (Stdout, Renamed "20220101000000.png" "20220101000000.png");
     (Stdout, MovedToNoExif);
     (Stdout, ProcessingComplete); (Stdout, SuccessfullyProcessed 1)].
Proof. vm_compute. repeat split; reflexivity. Qed.

(** A second run also renames a file with an EXIF timestamp when the
    first run has freed a name before it: [a.jpg] had to take the counter
    01 because another photo held the plain name, which that photo then
    left. *)
Example second_run_fills_freed_name :
  let before :=
    folder [("a.jpg", shot);
            ("20230517143000.jpg", with_original "2021:01:01 00:00:00")] in
  let first := main (start before) ["pics"] false in
  let second := main (start (fs first.2)) ["pics"] false in
  derived first.2
  = [(["pics"; "a.jpg"], ["pics"; "20230517143000_01.jpg"], true);
     (["pics"; "20230517143000.jpg"], ["pics"; "20210101000000.jpg"], true)] ∧
  derived second.2
  = [(["pics"; "20230517143000_01.jpg"], ["pics"; "20230517143000.jpg"], true);
     (["pics"; "20210101000000.jpg"], ["pics"; "20210101000000.jpg"], true)].
Proof. split; vm_compute; reflexivity. Qed.

(** ** C7 *)

(** C7 fails on a valid root in which [no-exif] is a regular file and an
    image has no EXIF date: [mkdir] raises [FileExistsError] outside any
    [try], the run ends in a traceback and the exit status is 1. *)
Theorem uncaught_mkdir_exit_status :
  let '(ending, self, w) := main (start blocked) ["pics"] false in
  Os.is_dir blocked ["pics"] = true ∧
  ending = Traceback FileExistsError ∧
  exit_status ending = Some 1%nat ∧
  error_count self = 0%nat.
Proof. vm_compute. repeat split; reflexivity. Qed.

(** ** C8 *)

(** C8 fails on the same folder: when the scan comes first, its [mkdir]
    ends the loop; the photo after it is not processed, the file system
    is as it was and neither counter has moved. *)
Theorem uncaught_mkdir_stops_the_run :
  let '(sig, self, w) :=
    process_images (init false) (start blocked)
                   [["pics"; "scan.png"]; ["pics"; "photo.jpg"]] in
  sig = Uncaught FileExistsError ∧
  processed_count self = 0%nat ∧ error_count self = 0%nat ∧
  derived w = [] ∧ output w = [] ∧
  fs w !! ["pics"; "photo.jpg"] = Some (File shot) ∧
  fs w !! ["pics"; "20230517143000.jpg"] = None.
Proof. vm_compute. repeat split; reflexivity. Qed.

(** Without the scan in front, the photo is renamed. *)
Example photo_alone_is_renamed :
  let '(sig, self, w) :=
    process_images (init false) (start blocked) [["pics"; "photo.jpg"]] in
  sig = Next ∧ processed_count self = 1%nat ∧
  fs w !! ["pics"; "20230517143000.jpg"] = Some (File shot).
Proof. vm_compute. repeat split; reflexivity. Qed.

(** ** The walker, the extractor and the deriver on the sample folders *)






